(** * Auditory looming test: a shallow embedding of [main.py] and [stimulus.py]

    The development follows the two source files.

    - [Geometry]: [point_inside] of main.py, over OpenCV's crossing test.
    - [Tracking]: the per-frame loop of main.py, with the module-level names
      [in_roi] and [prev_state] as possibly unbound variables.
    - [Workers]: the two audio processes [play_sound] and [trigger_stim] as
      step functions over the two shared events.
    - [PyFloat]: the builtin [float] applied to operator input.
    - [Calibration]: [isfloat] and [calibrate] of stimulus.py.
    - [Synthesis]: [noise_generator], [wave_generator] and the windowing of
      the background buffer.
    - [CommandLine]: [if_int], the choice of the video source, and the
      lines of the csv file.

    Pixel coordinates are Python ints, hence [Z].  Audio samples are modelled
    as exact rationals [Q]: rounding to binary32/binary64 is left out, sizes
    and indices are exact. *)

From Stdlib Require Import ZArith List Bool String Ascii Lia QArith Qabs Lqa.
From Stdlib Require PrimFloat SpecFloat FloatOps.
From Stdlib Require DecimalString DecimalZ.
Import ListNotations.

Set Warnings "-inexact-float".

(** ** Python exceptions the modelled code can raise *)

Inductive exn : Type :=
| NameError (name : string)
| ValueError
| EOFError.

(** ** main.py: [point_inside] *)

Module Geometry.
Local Open Scope Z_scope.

Definition point : Type := (Z * Z)%type.

(** A rectangle as [cv.selectROI] returns it: [(x, y, w, h)]. *)
Record rect : Type := Rect { rx : Z; ry : Z; rw : Z; rh : Z }.

(** What one edge [v0 -> v] contributes in OpenCV's [pointPolygonTest] when
    [measureDist] is false: the point lies on the edge, the edge is skipped,
    or the edge is tested for a crossing. *)
Inductive verdict : Type :=
| OnEdge
| Skipped
| Crossing (counted : bool).

Definition edge_test (pt v0 v : point) : verdict :=
  let '(px, py) := pt in
  let '(x0, y0) := v0 in
  let '(x, y) := v in
  if ((y0 <=? py) && (y <=? py)) || ((py <? y0) && (py <? y))
     || ((x0 <? px) && (x <? px))
  then
    if (py =? y) && ((px =? x) || ((py =? y0) &&
         (((x0 <=? px) && (px <=? x)) || ((x <=? px) && (px <=? x0)))))
    then OnEdge
    else Skipped
  else
    let dist := (py - y0) * (x - x0) - (px - x0) * (y - y0) in
    if dist =? 0 then OnEdge
    else
      let dist := if y <? y0 then - dist else dist in
      Crossing (0 <? dist).

(** The loop over the contour: [v] is the previous vertex, [counter] the
    number of crossings so far.  The result is [0] on an edge, otherwise
    [1] for an odd and [-1] for an even number of crossings. *)
Fixpoint polygon_loop (pt v : point) (contour : list point) (counter : Z) : Z :=
  match contour with
  | [] => if Z.even counter then -1 else 1
  | v' :: rest =>
      match edge_test pt v v' with
      | OnEdge => 0
      | Skipped => polygon_loop pt v' rest counter
      | Crossing c => polygon_loop pt v' rest (counter + if c then 1 else 0)
      end
  end.

(** [cv.pointPolygonTest(contour, pt, False)], the OpenCV routine that
    [point_inside] calls, on integer coordinates (which the [float32] arrays
    of the caller hold exactly). *)
Definition pointPolygonTest (contour : list point) (pt : point) : Z :=
  match contour with
  | [] => -1
  | _ => polygon_loop pt (last contour (0, 0)) contour 0
  end.

Definition color : Type := (Z * Z * Z)%type.

Definition corners (r : rect) : list point :=
  [ (rx r, ry r);
    (rx r + rw r, ry r);
    (rx r + rw r, ry r + rh r);
    (rx r, ry r + rh r) ].

Definition point_inside (r : rect) (p : point) : bool * color :=
  let test := pointPolygonTest (corners r) p in
  if 0 <=? test then (true, (255, 0, 0)) else (false, (0, 255, 0)).

(** The closed rectangle, and its complement. *)
Definition in_closed_rect (r : rect) (p : point) : Prop :=
  rx r <= fst p <= rx r + rw r /\ ry r <= snd p <= ry r + rh r.

Definition strictly_outside (r : rect) (p : point) : Prop :=
  fst p < rx r \/ rx r + rw r < fst p \/ snd p < ry r \/ ry r + rh r < snd p.

Definition strictly_inside (r : rect) (p : point) : Prop :=
  rx r < fst p < rx r + rw r /\ ry r < snd p < ry r + rh r.

Definition on_boundary (r : rect) (p : point) : Prop :=
  in_closed_rect r p /\ ~ strictly_inside r p.

End Geometry.

(** ** main.py: the tracking loop *)

Module Tracking.
Import Geometry.
Local Open Scope Z_scope.

(** What one iteration observes after [cap.read()] gave a frame: the result
    of [tracker.update(frame)] and the key code of [cv.waitKey(1)]. *)
Record frame : Type := Frame {
  success : bool;
  roi : Z * Z * Z * Z;
  key : Z
}.

(** One line of centroid.csv, before formatting. *)
Definition record : Type := (Z * Z * bool)%type.

(** The module-level names the loop assigns ([None]: not bound yet), the
    lines written to the csv file, one flag per processed frame telling
    whether [play_stim.set()] was called on it, and the sticky event. *)
Record state : Type := State {
  in_roi : option bool;
  prev_state : option bool;
  csv : list record;
  fired : list bool;
  end_stream : bool
}.

(** The state when the loop is entered: neither name has been assigned. *)
Definition initial : state :=
  {| in_roi := None; prev_state := None; csv := []; fired := [];
     end_stream := false |}.

Inductive outcome : Type :=
| Finished (s : state)
| Raised (e : exn) (s : state).

(** Reading a module-level name. *)
Definition load (name : string) (v : option bool) : exn + bool :=
  match v with
  | Some b => inr b
  | None => inl (NameError name)
  end.

(** [int(a + b / 2)] on ints: true division, then truncation toward zero. *)
Definition int_half_sum (a b : Z) : Z := Z.quot (2 * a + b) 2.

Definition centre (r : Z * Z * Z * Z) : point :=
  let '(x, y, w, h) := r in (int_half_sum x w, int_half_sum y h).

(** The [if success:] block. *)
Definition track (rect : Geometry.rect) (f : frame) (s : state) : state :=
  if success f then
    let center := centre (roi f) in
    let '(inside, _) := point_inside rect center in
    {| in_roi := Some inside;
       prev_state := prev_state s;
       csv := csv s ++ [(fst center, snd center, inside)];
       fired := fired s;
       end_stream := end_stream s |}
  else s.

(** [in_roi and in_roi != prev_state]: the right operand is evaluated only
    when the left one is true. *)
Definition rising (s : state) : exn + bool :=
  match load "in_roi" (in_roi s) with
  | inl e => inl e
  | inr false => inr false
  | inr true =>
      match load "prev_state" (prev_state s) with
      | inl e => inl e
      | inr prev => inr (negb (Bool.eqb true prev))
      end
  end.

(** The body of [while True:] from the tracker update on.  The boolean of
    the result tells whether the loop was left with [break]. *)
Definition body (rect : Geometry.rect) (f : frame) (s : state)
  : exn * state + state * bool :=
  let s1 := track rect f s in
  match rising s1 with
  | inl e => inl (e, s1)
  | inr fire =>
      let s2 := {| in_roi := in_roi s1;
                   prev_state := in_roi s1;
                   csv := csv s1;
                   fired := fired s1 ++ [fire];
                   end_stream := end_stream s1 |} in
      if key f =? 27 then
        inr ({| in_roi := in_roi s2;
                prev_state := prev_state s2;
                csv := csv s2;
                fired := fired s2;
                end_stream := true |}, true)
      else inr (s2, false)
  end.

(** The loop over the frames the source delivers; the end of the list is
    [cap.read()] returning no frame. *)
Fixpoint loop (rect : Geometry.rect) (frames : list frame) (s : state) : outcome :=
  match frames with
  | [] => Finished s
  | f :: rest =>
      match body rect f s with
      | inl (e, s') => Raised e s'
      | inr (s', true) => Finished s'
      | inr (s', false) => loop rect rest s'
      end
  end.

(** The containment state of a tracked frame. *)
Definition containment (rect : Geometry.rect) (f : frame) : bool :=
  fst (point_inside rect (centre (roi f))).

(** Rising edges of a state sequence whose predecessor is [prev]. *)
Fixpoint rising_edges (prev : bool) (states : list bool) : list bool :=
  match states with
  | [] => []
  | cur :: rest => (cur && negb prev) :: rising_edges cur rest
  end.




(** The frames the loop processes: those up to and including the first on
    which [cv.waitKey(1)] reads ESC. *)
Fixpoint processed (frames : list frame) : list frame :=
  match frames with
  | [] => []
  | f :: rest => if key f =? 27 then [f] else f :: processed rest
  end.

(** The line written for a tracked frame. *)
Definition record_of (rect : Geometry.rect) (f : frame) : record :=
  (fst (centre (roi f)), snd (centre (roi f)), containment rect f).

(** The value of [in_roi] after each frame when it was [last] before: a
    frame the tracker loses leaves it as it was. *)
Fixpoint held (rect : Geometry.rect) (last : bool) (frames : list frame)
  : list bool :=
  match frames with
  | [] => []
  | f :: rest =>
      let cur := if success f then containment rect f else last in
      cur :: held rect cur rest
  end.

(** Both names hold [p], as after every completed iteration. *)
Definition running (s : state) (p : bool) : Prop :=
  in_roi s = Some p /\ prev_state s = Some p.

(** The loop can start on [frames] from [s] with previous state [p]: both
    names hold [p], or the first frame is tracked outside the region (and
    [p] is outside). *)
Definition ready (rect : Geometry.rect) (s : state) (frames : list frame)
    (p : bool) : Prop :=
  running s p \/
  (p = false /\
   exists f rest,
     frames = f :: rest /\ success f = true /\ containment rect f = false).

(** Lines 159-176 of main.py: each of the two selections reads one frame
    when the source has one and sets its result from the box the operator
    draws; without a frame the result stays [None]. *)
Definition select_on_frame {A : Type} (frames : list frame) (drawn : A)
  : option A * list frame :=
  match frames with
  | [] => (None, [])
  | _ :: rest => (Some drawn, rest)
  end.

Inductive session_outcome : Type :=
| Ran (o : outcome)
| Unset_region.   (* [rect[0]] evaluated while [rect] is [None] *)

(** The selections followed by the tracking loop.  [tracker_box] and
    [trigger_box] are what the operator draws. *)
Definition session (frames : list frame)
    (tracker_box : Z * Z * Z * Z) (trigger_box : Geometry.rect)
  : session_outcome :=
  let '(roi, frames1) := select_on_frame frames tracker_box in
  let '(rect, frames2) := select_on_frame frames1 trigger_box in
  match frames2 with
  | [] => Ran (Finished initial)
  | _ :: _ =>
      match rect with
      | None => Unset_region
      | Some r => Ran (loop r frames2 initial)
      end
  end.

(** The state an outcome ends in. *)
Definition state_of (o : outcome) : state :=
  match o with
  | Finished s => s
  | Raised _ s => s
  end.

(** The frames of the examples below: region (10, 10, 20, 20), a box whose
    centre (2, 2) is outside it and a box whose centre (20, 20) is inside. *)
Definition region : Geometry.rect := Rect 10 10 20 20.
Definition frame_outside : frame := Frame true (0, 0, 4, 4) 0.
Definition frame_inside : frame := Frame true (18, 18, 4, 4) 0.
Definition frame_lost : frame := Frame false (0, 0, 0, 0) 0.

End Tracking.

(** ** main.py: the two audio processes *)

Module Workers.

(** The two [multiprocessing.Event] objects shared with the main process. *)
Record events : Type := Events {
  play_stim : bool;
  end_stream : bool
}.

(** *** [play_sound] *)

Inductive bg_pc : Type :=
| BgOpen      (* p = pyaudio.PyAudio(); cont_stream = p.open(...) *)
| BgTest      (* while not end_stream.is_set(): *)
| BgWrite     (*     cont_stream.write(background) *)
| BgDone.     (* stop_stream(); close(); p.terminate(); return *)

Record bg : Type := Bg {
  bg_at : bg_pc;
  bg_stream : bool;       (* the output stream is open *)
  bg_audio : bool;        (* the PyAudio instance is alive *)
  bg_written : nat        (* completed writes of the background buffer *)
}.

Definition bg_initial : bg :=
  {| bg_at := BgOpen; bg_stream := false; bg_audio := false;
     bg_written := 0 |}.

(** One statement of [play_sound]; [None] once the function has returned. *)
Definition play_sound_step (ev : events) (w : bg) : option bg :=
  match bg_at w with
  | BgOpen =>
      Some {| bg_at := BgTest; bg_stream := true; bg_audio := true;
              bg_written := bg_written w |}
  | BgTest =>
      if negb (end_stream ev)
      then Some {| bg_at := BgWrite; bg_stream := bg_stream w;
                   bg_audio := bg_audio w; bg_written := bg_written w |}
      else Some {| bg_at := BgDone; bg_stream := false; bg_audio := false;
                   bg_written := bg_written w |}
  | BgWrite =>
      Some {| bg_at := BgTest; bg_stream := bg_stream w;
              bg_audio := bg_audio w; bg_written := S (bg_written w) |}
  | BgDone => None
  end.

(** [play_sound] run for at most [n] statements, the events as they are. *)
Fixpoint play_sound (n : nat) (ev : events) (w : bg) : bg :=
  match n with
  | O => w
  | S n' =>
      match play_sound_step ev w with
      | Some w' => play_sound n' ev w'
      | None => w
      end
  end.

(** *** [trigger_stim] *)

Inductive stim_pc : Type :=
| StInit      (* p = pyaudio.PyAudio() *)
| StWait      (* play_stim.wait() *)
| StOpen      (* stim_stream = p.open(...) *)
| StWrite     (* stim_stream.write(wave) *)
| StClose     (* stim_stream.close() *)
| StClear     (* play_stim.clear() *)
| StTest      (* if end_stream.is_set(): *)
| StDone.     (*     stim_stream.close(); p.terminate(); break *)

Record stim : Type := Stim {
  st_at : stim_pc;
  st_stream : bool;       (* the output stream is open *)
  st_audio : bool;        (* the PyAudio instance is alive *)
  st_written : nat        (* completed writes of the stimulus buffer *)
}.

Definition stim_initial : stim :=
  {| st_at := StInit; st_stream := false; st_audio := false; st_written := 0 |}.

Definition stim_goto (pc : stim_pc) (s : stim) : stim :=
  {| st_at := pc; st_stream := st_stream s; st_audio := st_audio s;
     st_written := st_written s |}.

(** One statement of [trigger_stim].  [None] when the process cannot move:
    it has returned, or it is blocked in [play_stim.wait()]. *)
Definition trigger_stim_step (ev : events) (s : stim) : option (events * stim) :=
  match st_at s with
  | StInit =>
      Some (ev, {| st_at := StWait; st_stream := st_stream s;
                   st_audio := true; st_written := st_written s |})
  | StWait =>
      if play_stim ev then Some (ev, stim_goto StOpen s) else None
  | StOpen =>
      Some (ev, {| st_at := StWrite; st_stream := true;
                   st_audio := st_audio s; st_written := st_written s |})
  | StWrite =>
      Some (ev, {| st_at := StClose; st_stream := st_stream s;
                   st_audio := st_audio s; st_written := S (st_written s) |})
  | StClose =>
      Some (ev, {| st_at := StClear; st_stream := false;
                   st_audio := st_audio s; st_written := st_written s |})
  | StClear =>
      Some ({| play_stim := false; end_stream := end_stream ev |},
            stim_goto StTest s)
  | StTest =>
      if end_stream ev
      then Some (ev, {| st_at := StDone; st_stream := false;
                        st_audio := false; st_written := st_written s |})
      else Some (ev, stim_goto StWait s)
  | StDone => None
  end.

(** [trigger_stim] run for at most [n] statements; only the process itself
    changes the events meanwhile. *)
Fixpoint trigger_stim (n : nat) (ev : events) (s : stim) : events * stim :=
  match n with
  | O => (ev, s)
  | S n' =>
      match trigger_stim_step ev s with
      | Some (ev', s') => trigger_stim n' ev' s'
      | None => (ev, s)
      end
  end.

(** What happens next while the session runs: the main process calls
    [play_stim.set()] or [end_stream.set()], or [trigger_stim] executes its
    next statement (nothing, when it is blocked or has returned). *)
Inductive action : Type :=
| Set_play
| Set_end
| Stim_statement.

Definition act (a : action) (c : events * stim) : events * stim :=
  match a with
  | Set_play =>
      ({| play_stim := true; end_stream := end_stream (fst c) |}, snd c)
  | Set_end =>
      ({| play_stim := play_stim (fst c); end_stream := true |}, snd c)
  | Stim_statement =>
      match trigger_stim_step (fst c) (snd c) with
      | Some c' => c'
      | None => c
      end
  end.

(** The events and the stimulus process after the actions [acts], in order. *)
Definition interleave (acts : list action) (c : events * stim)
  : events * stim :=
  fold_left (fun c a => act a c) acts c.

(** The number of calls of [play_stim.set()] among the actions. *)
Fixpoint set_calls (acts : list action) : nat :=
  match acts with
  | [] => 0
  | Set_play :: rest => S (set_calls rest)
  | _ :: rest => set_calls rest
  end.

(** The playbacks still owed: one when the process is about to write, one
    when the trigger is raised and the process will come to see it; none
    between the write and the clearing of the trigger. *)
Definition owed (c : events * stim) : nat :=
  match st_at (snd c) with
  | StOpen | StWrite => 1
  | StClose | StClear => 0
  | StInit | StWait | StTest | StDone => if play_stim (fst c) then 1 else 0
  end.

(** The stream is open exactly between the opening and the closing of a
    playback, and the PyAudio instance is alive from its creation to the
    return of the process. *)
Definition handles_in_order (s : stim) : bool :=
  match st_at s with
  | StInit | StDone => negb (st_stream s) && negb (st_audio s)
  | StWait | StOpen | StClear | StTest => negb (st_stream s) && st_audio s
  | StWrite | StClose => st_stream s && st_audio s
  end.

(** [trigger_stim] blocked in [play_stim.wait()], nothing played yet. *)
Definition stim_waiting : stim :=
  {| st_at := StWait; st_stream := false; st_audio := true; st_written := 0 |}.





End Workers.

(** ** The builtin [float] on a string *)

Module PyFloat.
Local Open Scope Z_scope.

(** A Python float: a finite value (kept exact here, the builtin rounds it
    to the nearest binary64), an infinity, or a NaN. *)
Inductive pyfloat : Type :=
| Finite (q : Q)
| Infinity (negative : bool)
| NaN.

Definition code (c : ascii) : Z := Z.of_nat (nat_of_ascii c).

(** The ASCII characters [str.isspace] accepts. *)
Definition is_space (c : ascii) : bool :=
  let n := code c in
  ((9 <=? n) && (n <=? 13)) || ((28 <=? n) && (n <=? 32)).

Definition digit_of (c : ascii) : option Z :=
  let n := code c in
  if (48 <=? n) && (n <=? 57) then Some (n - 48) else None.

Definition lower (c : ascii) : ascii :=
  let n := code c in
  if (65 <=? n) && (n <=? 90) then ascii_of_nat (Z.to_nat (n + 32)) else c.

Fixpoint lstrip (s : list ascii) : list ascii :=
  match s with
  | c :: rest => if is_space c then lstrip rest else s
  | [] => []
  end.

Definition strip (s : list ascii) : list ascii :=
  rev (lstrip (rev (lstrip s))).

(** [digit (["_"] digit)*] after its first digit: the value read so far,
    the number of digits read so far, and the rest of the input. *)
Fixpoint digits_more (acc len : Z) (s : list ascii) : Z * Z * list ascii :=
  match s with
  | c :: rest =>
      match digit_of c with
      | Some d => digits_more (10 * acc + d) (len + 1) rest
      | None =>
          if Ascii.eqb c "_" then
            match rest with
            | c' :: rest' =>
                match digit_of c' with
                | Some d => digits_more (10 * acc + d) (len + 1) rest'
                | None => (acc, len, s)
                end
            | [] => (acc, len, s)
            end
          else (acc, len, s)
      end
  | [] => (acc, len, [])
  end.

Definition digitpart (acc len : Z) (s : list ascii)
  : option (Z * Z * list ascii) :=
  match s with
  | c :: rest =>
      match digit_of c with
      | Some d => Some (digits_more (10 * acc + d) (len + 1) rest)
      | None => None
      end
  | [] => None
  end.

(** [[digitpart] "." digitpart | digitpart ["."]]: the digits as one integer
    and the number of digits after the point. *)
Definition number (s : list ascii) : option (Z * Z * list ascii) :=
  match digitpart 0 0 s with
  | Some (m, _, rest) =>
      match rest with
      | c :: rest' =>
          if Ascii.eqb c "." then
            match digitpart m 0 rest' with
            | Some r => Some r
            | None => Some (m, 0, rest')
            end
          else Some (m, 0, rest)
      | [] => Some (m, 0, [])
      end
  | None =>
      match s with
      | c :: rest => if Ascii.eqb c "." then digitpart 0 0 rest else None
      | [] => None
      end
  end.

Definition sign (s : list ascii) : bool * list ascii :=
  match s with
  | c :: rest =>
      if Ascii.eqb c "-" then (true, rest)
      else if Ascii.eqb c "+" then (false, rest)
      else (false, s)
  | [] => (false, [])
  end.

(** [("e" | "E") [sign] digitpart], or nothing. *)
Definition exponent (s : list ascii) : option (Z * list ascii) :=
  match s with
  | c :: rest =>
      if Ascii.eqb (lower c) "e" then
        let '(neg, rest') := sign rest in
        match digitpart 0 0 rest' with
        | Some (e, _, rest'') => Some (if neg then - e else e, rest'')
        | None => None
        end
      else Some (0, s)
  | [] => Some (0, [])
  end.

(** [m * 10 ^ e]. *)
Definition scale10 (m e : Z) : Q :=
  if 0 <=? e then inject_Z (m * 10 ^ e)
  else Qmake m (Z.to_pos (10 ^ (- e))).

Definition floatnumber (s : list ascii) : option Q :=
  match number s with
  | Some (m, frac, rest) =>
      match exponent rest with
      | Some (e, []) => Some (scale10 m (e - frac))
      | _ => None
      end
  | None => None
  end.

Definition word_eqb (s : list ascii) (w : string) : bool :=
  String.eqb (string_of_list_ascii (map lower s)) w.

(** [float(s)] for a [str]; the only exception it raises is [ValueError]. *)
Definition float (s : string) : exn + pyfloat :=
  let '(neg, body) := sign (strip (list_ascii_of_string s)) in
  if word_eqb body "inf" || word_eqb body "infinity" then inr (Infinity neg)
  else if word_eqb body "nan" then inr NaN
  else
    match floatnumber body with
    | Some q => inr (Finite (if neg then Qopp q else q))
    | None => inl ValueError
    end.



End PyFloat.

(** ** stimulus.py: [isfloat] and [calibrate] *)

Module Calibration.
Import PyFloat.

Definition isfloat (num : string) : bool :=
  match float num with
  | inr _ => true
  | inl _ => false
  end.










(** The amplitudes the inputs parse to, in order. *)
Fixpoint parsed (inputs : list string) : list pyfloat :=
  match inputs with
  | [] => []
  | s :: rest =>
      match float s with
      | inr a => a :: parsed rest
      | inl _ => parsed rest
      end
  end.



End Calibration.

(** ** stimulus.py: the synthesis of the two buffers, and the windowing of
    the background buffer in main.py *)

Module Synthesis.
Import PrimFloat.
Local Open Scope Z_scope.

(** A one-dimensional numpy array of samples. *)
Definition array : Type := list Q.

Definition size (a : array) : Z := Z.of_nat (List.length a).

(** The sample at index [k], for [0 <= k < size a]. *)
Definition get (a : array) (k : Z) : Q := nth (Z.to_nat k) a 0%Q.

(** numpy raises [ValueError] on a negative size and on operands whose
    shapes cannot be broadcast together: [None] below. *)
Definition bind {A B : Type} (m : option A) (f : A -> option B) : option B :=
  match m with
  | Some a => f a
  | None => None
  end.

Notation "x <- m ;; f" := (bind m (fun x => f))
  (at level 61, m at next level, right associativity).

(** [int(f)] for a float: truncation toward zero; an infinity or a NaN
    raises. *)
Definition py_int (f : PrimFloat.float) : option Z :=
  match FloatOps.Prim2SF f with
  | SpecFloat.S754_zero _ => Some 0
  | SpecFloat.S754_finite s m e =>
      let a := if 0 <=? e then Z.pos m * 2 ^ e else Z.pos m / 2 ^ (- e) in
      Some (if s then - a else a)
  | _ => None
  end.

(** [np.random.normal(0.5, 0.1, size)]: the variates are whatever the
    generator [rng] yields. *)
Definition normal (rng : nat -> Q) (n : Z) : option array :=
  if n <? 0 then None else Some (map rng (seq 0 (Z.to_nat n))).

(** [np.linspace(start, stop, num)], end point included. *)
Definition linspace (start stop : Q) (num : Z) : option array :=
  if num <? 0 then None
  else if num =? 0 then Some []
  else if num =? 1 then Some [start]
  else
    let step := ((stop - start) / inject_Z (num - 1))%Q in
    Some (map (fun i => (inject_Z (Z.of_nat i) * step + start)%Q)
              (seq 0 (Z.to_nat (num - 1))) ++ [stop]).

(** [np.repeat(np.array(x), n)]. *)
Definition np_repeat (x : Q) (n : Z) : option array :=
  if n <? 0 then None else Some (repeat x (Z.to_nat n)).

(** [np.tile(a, reps)]. *)
Definition tile (a : array) (reps : Z) : array :=
  List.concat (repeat a (Z.to_nat reps)).

(** Broadcasting a one-dimensional operand to [n] elements. *)
Definition broadcast (v : array) (n : nat) : option array :=
  if Nat.eqb (List.length v) n then Some v
  else
    match v with
    | [x] => Some (repeat x n)
    | _ => None
    end.

Fixpoint zip_mul (a b : array) : array :=
  match a, b with
  | x :: a', y :: b' => (x * y)%Q :: zip_mul a' b'
  | _, _ => []
  end.

(** [a * b] on arrays. *)
Definition mul (a b : array) : option array :=
  if Nat.eqb (List.length a) (List.length b) then Some (zip_mul a b)
  else
    match a, b with
    | [x], _ => Some (map (Qmult x) b)
    | _, [y] => Some (map (fun x => (x * y)%Q) a)
    | _, _ => None
    end.

(** A slice bound as Python normalises it for a sequence of length [len]. *)
Definition bound (len i : Z) : Z :=
  if i <? 0 then Z.max 0 (i + len) else Z.min i len.

(** [a[i:j]]. *)
Definition slice (a : array) (i j : Z) : array :=
  let lo := bound (size a) i in
  let hi := bound (size a) j in
  firstn (Z.to_nat (hi - lo)) (skipn (Z.to_nat lo) a).

(** [a[i:j] = v]. *)
Definition set_slice (a : array) (i j : Z) (v : array) : option array :=
  let lo := bound (size a) i in
  let hi := bound (size a) j in
  let n := Z.to_nat (hi - lo) in
  v' <- broadcast v n ;;
  Some (firstn (Z.to_nat lo) a ++ v' ++ skipn (Z.to_nat lo + n) a).

(** [noise_generator(amplitude, duration, fs)], for ints [duration] and
    [fs]; [int(fs * 0.25)] is exact.  The array [t] of the source is not
    used by it. *)
Definition noise_generator (amplitude : Q) (duration fs : Z)
    (rng : nat -> Q) : option array :=
  noise <- normal rng (fs * duration) ;;
  let wave := map (Qmult amplitude) noise in
  let window := Z.quot fs 4 in
  ramp_vector <- linspace 0 amplitude window ;;
  wave <- set_slice wave 0 window ramp_vector ;;
  let end_window := size wave - window in
  let end_ramp := rev ramp_vector in
  wave <- set_slice wave end_window (size wave) end_ramp ;;
  mul wave noise.

(** The value of [period] in [wave_generator]. *)
Definition period (base peak : Q) : option array :=
  n_rise <- py_int (44100 * 0.4)%float ;;
  rise <- linspace base peak n_rise ;;
  n_base <- py_int (44100 * 0.6)%float ;;
  base_vec <- np_repeat base n_base ;;
  Some (rise ++ base_vec).

(** The value of [wave] in [wave_generator] before the noise is applied. *)
Definition envelope (base peak : Q) : option array :=
  let duration := 10 in
  p <- period base peak ;;
  Some (tile p duration).

(** [wave_generator(base, peak)]. *)
Definition wave_generator (base peak : Q) (rng : nat -> Q) : option array :=
  let duration := 10 in
  let fs := 44100 in
  wave <- envelope base peak ;;
  noise <- normal rng (fs * duration) ;;
  mul wave noise.

(** [np.hanning(M)]: [M] coefficients, computed by numpy with [cos]; their
    values are whatever [coef] yields. *)
Definition hanning (coef : nat -> Q) (M : Z) : array :=
  map coef (seq 0 (Z.to_nat M)).

(** The background buffer of main.py: [noise_generator(min_amp, 50, 44100)]
    with both ends multiplied by half a window. *)
Definition background (min_amp : Q) (rng coef : nat -> Q) : option array :=
  background <- noise_generator min_amp 50 44100 rng ;;
  hanning_window <- py_int (44100 * 0.5)%float ;;
  let hann := hanning coef hanning_window in
  let rev_hanning := rev hann in
  let half := hanning_window / 2 in
  head <- mul (slice background 0 half) (slice hann 0 half) ;;
  background <- set_slice background 0 half head ;;
  tail <- mul (slice background (- half) (size background))
              (slice rev_hanning 0 half) ;;
  set_slice background (- half) (size background) tail.

(** The sample of index [k] of [np.linspace(start, stop, num)]. *)
Definition lin_value (start stop : Q) (num k : Z) : Q :=
  if num =? 1 then start
  else if k =? num - 1 then stop
  else (inject_Z k * ((stop - start) / inject_Z (num - 1)) + start)%Q.

(** The sample of index [k] of [wave] in [noise_generator] before its last
    multiplication by the noise: the rising ramp, the scaled noise, the
    falling ramp. *)
Definition ramped (amplitude : Q) (duration fs : Z) (rng : nat -> Q) (k : Z)
  : Q :=
  let window := Z.quot fs 4 in
  let n := fs * duration in
  if k <? window then lin_value 0 amplitude window k
  else if n - window <=? k then lin_value 0 amplitude window (n - 1 - k)
  else (amplitude * rng (Z.to_nat k))%Q.

(** Every sample lies in [-1, 1]. *)
Definition normalized (a : array) : Prop :=
  Forall (fun x => (-1 <= x /\ x <= 1)%Q) a.

End Synthesis.

(** ** main.py: the command line and the lines of the csv file *)

Module CommandLine.
Import PyFloat.
Local Open Scope Z_scope.

(** [str(n)] for an int: its decimal numeral. *)
Definition str_int (n : Z) : string :=
  DecimalString.NilZero.string_of_int (Z.to_int n).

(** [str(b)] for a bool. *)
Definition str_bool (b : bool) : string :=
  if b then "True"%string else "False"%string.

(** [int(s)] for a [str], in base 10: surrounding whitespace, a sign, and
    digits that single underscores may separate. *)
Definition int (s : string) : exn + Z :=
  let '(neg, body) := sign (strip (list_ascii_of_string s)) in
  match digitpart 0 0 body with
  | Some (m, _, []) => inr (if neg then - m else m)
  | _ => inl ValueError
  end.

Definition if_int (value : string) : option Z :=
  match int value with
  | inr out => Some out
  | inl _ => None
  end.

(** What [cv.VideoCapture] is given: a device index or a file name. *)
Inductive source : Type :=
| Device (index : Z)
| Path (name : string).

(** Lines 91-103 of main.py: [None] when the usage text is printed and the
    program exits, otherwise the value of [video]. *)
Definition video (argv : list string) : option source :=
  match argv with
  | _ :: arg :: _ =>
      match if_int arg with
      | Some index => Some (Device index)
      | None => Some (Path arg)
      end
  | _ => None
  end.

(** The characters a string that [int] accepts can hold. *)
Definition numeral_char (c : ascii) : bool :=
  is_space c
  || match digit_of c with Some _ => true | None => false end
  || Ascii.eqb c "_" || Ascii.eqb c "+" || Ascii.eqb c "-".

(** Line 213 of main.py: the text written for one record. *)
Definition csv_line (r : Tracking.record) : string :=
  let '(x, y, inside) := r in
  (str_int x ++ "," ++ str_int y ++ "," ++ str_bool inside
   ++ String (ascii_of_nat 10) EmptyString)%string.

(** The text of centroid.csv after the records [rs]: the lines, one
    [csv.write] after the other. *)
Definition csv_text (rs : list Tracking.record) : string :=
  fold_right String.append EmptyString (map csv_line rs).

(** The value of a decimal numeral read from the left, after [acc]. *)
Fixpoint uint_value (d : Decimal.uint) (acc : Z) : Z :=
  match d with
  | Decimal.Nil => acc
  | Decimal.D0 d => uint_value d (10 * acc + 0)
  | Decimal.D1 d => uint_value d (10 * acc + 1)
  | Decimal.D2 d => uint_value d (10 * acc + 2)
  | Decimal.D3 d => uint_value d (10 * acc + 3)
  | Decimal.D4 d => uint_value d (10 * acc + 4)
  | Decimal.D5 d => uint_value d (10 * acc + 5)
  | Decimal.D6 d => uint_value d (10 * acc + 6)
  | Decimal.D7 d => uint_value d (10 * acc + 7)
  | Decimal.D8 d => uint_value d (10 * acc + 8)
  | Decimal.D9 d => uint_value d (10 * acc + 9)
  end.

(** The characters of a decimal numeral, and of a minus sign or none. *)
Definition chars (d : Decimal.uint) : list ascii :=
  list_ascii_of_string (DecimalString.NilEmpty.string_of_uint d).

Definition sign_chars (neg : bool) : list ascii :=
  if neg then ["-"%char] else [].

Definition is_digit (c : ascii) : bool :=
  match digit_of c with Some _ => true | None => false end.

End CommandLine.

(** * Properties *)

(** ** The embedding on small inputs *)

Section Runs.
Local Open Scope Z_scope.

Example point_inside_runs :
  map (fun p => fst (Geometry.point_inside (Geometry.Rect 0 0 2 2) p))
      [(1, 1); (0, 0); (2, 1); (1, 2); (3, 1); (1, -1); (-1, 3)] =
  [true; true; true; true; false; false; false].
Proof. reflexivity. Qed.

(** Outside, inside, tracker failure, inside, outside with ESC pressed: one
    call of [play_stim.set()], four records, and the last frame is never
    read. *)
Example loop_runs :
  Tracking.loop Tracking.region
    [Tracking.frame_outside; Tracking.frame_inside; Tracking.frame_lost;
     Tracking.frame_inside; Tracking.Frame true (0, 0, 4, 4) 27;
     Tracking.frame_inside]
    Tracking.initial =
  Tracking.Finished
    {| Tracking.in_roi := Some false;
       Tracking.prev_state := Some false;
       Tracking.csv :=
         [(2, 2, false); (20, 20, true); (20, 20, true); (2, 2, false)];
       Tracking.fired := [false; true; false; false; false];
       Tracking.end_stream := true |}.
Proof. reflexivity. Qed.

Example float_runs :
  map PyFloat.float
      ["2.5"; " 1 "; "1_000.5"; "+.5e-3"; "-inf"; "NaN"; "1e"; "1__0";
       "0x10"; "abc"]%string =
  [inr (PyFloat.Finite (25 # 10)); inr (PyFloat.Finite 1);
   inr (PyFloat.Finite (10005 # 10)); inr (PyFloat.Finite (5 # 10000));
   inr (PyFloat.Infinity true); inr PyFloat.NaN;
   inl ValueError; inl ValueError; inl ValueError; inl ValueError].
Proof. reflexivity. Qed.

Example float_of_empty_line : PyFloat.float EmptyString = inl ValueError.
Proof. reflexivity. Qed.

Example linspace_runs :
  option_map (map Qred) (Synthesis.linspace 0 1 5) =
  Some [0; 1 # 4; 1 # 2; 3 # 4; 1]%Q.
Proof. reflexivity. Qed.

Example slices_run :
  Synthesis.slice [1; 2; 3; 4]%Q (-3) (-1) = [2; 3]%Q /\
  Synthesis.set_slice [1; 2; 3; 4]%Q (-2) 4 [9]%Q = Some [1; 2; 9; 9]%Q /\
  Synthesis.set_slice [1; 2; 3; 4]%Q 0 2 [9; 9; 9]%Q = None.
Proof. repeat split. Qed.

(** [noise_generator(1, 2, 8)] on a noise that is constantly 0.5: a window
    of two samples at each end. *)
Example noise_generator_runs :
  option_map (map Qred) (Synthesis.noise_generator 1 2 8 (fun _ => 1 # 2)) =
  Some [0; 1 # 2; 1 # 4; 1 # 4; 1 # 4; 1 # 4; 1 # 4; 1 # 4;
        1 # 4; 1 # 4; 1 # 4; 1 # 4; 1 # 4; 1 # 4; 1 # 2; 0]%Q.
Proof. reflexivity. Qed.

End Runs.

(** ** The containment test *)

Section Containment.
Import Geometry.
Local Open Scope Z_scope.

(** Decides one comparison of the goal from the hypotheses. *)
Ltac decide_cmp :=
  match goal with
  | |- context [?a <=? ?b] =>
      first [ rewrite (proj2 (Z.leb_le a b)) by nia
            | rewrite (proj2 (Z.leb_gt a b)) by nia ]
  | |- context [?a <? ?b] =>
      first [ rewrite (proj2 (Z.ltb_lt a b)) by nia
            | rewrite (proj2 (Z.ltb_ge a b)) by nia ]
  | |- context [?a =? ?b] =>
      first [ rewrite (proj2 (Z.eqb_eq a b)) by nia
            | rewrite (proj2 (Z.eqb_neq a b)) by nia ]
  end.

(** On the four corners of a rectangle the crossing test returns [1] in the
    interior, [0] on the boundary and [-1] outside. *)
Lemma pointPolygonTest_corners (x y w h px py : Z) :
  0 < w -> 0 < h ->
  pointPolygonTest (corners (Rect x y w h)) (px, py) =
    if (x <=? px) && (px <=? x + w) && (y <=? py) && (py <=? y + h) then
      if (x <? px) && (px <? x + w) && (y <? py) && (py <? y + h)
      then 1 else 0
    else -1.
Proof.
  intros Hw Hh.
  unfold pointPolygonTest, corners, polygon_loop, edge_test, last.
  cbn [rx ry rw rh].
  destruct (Z.compare_spec px x), (Z.compare_spec px (x + w)),
    (Z.compare_spec py y), (Z.compare_spec py (y + h)); try lia;
    repeat (decide_cmp; cbn [andb orb negb Z.even Z.add Pos.add Z.opp]);
    reflexivity.
Qed.

Lemma point_inside_iff (r : rect) (p : point) :
  0 < rw r -> 0 < rh r ->
  fst (point_inside r p) = true <-> in_closed_rect r p.
Proof.
  intros Hw Hh. destruct r as [x y w h], p as [px py].
  cbn [rx ry rw rh] in Hw, Hh.
  unfold point_inside, in_closed_rect. cbn [rx ry rw rh fst snd].
  rewrite pointPolygonTest_corners by assumption.
  destruct (Z.leb_spec x px), (Z.leb_spec px (x + w)),
    (Z.leb_spec y py), (Z.leb_spec py (y + h)); cbn [andb];
    try (split; [discriminate | lia]).
  destruct ((x <? px) && (px <? x + w) && (y <? py) && (py <? y + h));
    cbn; split; auto; lia.
Qed.

(** C3. For a rectangle of positive width and height, [point_inside]
    answers true for a point strictly inside the rectangle and for a point on
    its boundary, and false for a point strictly outside it. *)
Theorem point_inside_closed_region (r : rect) (p : point) :
  0 < rw r -> 0 < rh r ->
  (strictly_inside r p -> fst (point_inside r p) = true) /\
  (on_boundary r p -> fst (point_inside r p) = true) /\
  (strictly_outside r p -> fst (point_inside r p) = false).
Proof.
  intros Hw Hh.
  pose proof (point_inside_iff r p Hw Hh) as Hiff.
  unfold strictly_inside, on_boundary, strictly_outside, in_closed_rect in *.
  repeat split.
  - intros Hin. apply Hiff. lia.
  - intros [Hin _]. apply Hiff. exact Hin.
  - intros Hout. destruct (fst (point_inside r p)); [| reflexivity].
    assert (Hin := proj1 Hiff eq_refl). lia.
Qed.

(** The theorem at the rectangle (10, 10, 20, 20) and its corner (30, 30). *)
Lemma point_inside_closed_region_witness :
  0 < rw (Rect 10 10 20 20) /\ 0 < rh (Rect 10 10 20 20) /\
  on_boundary (Rect 10 10 20 20) (30, 30) /\
  fst (point_inside (Rect 10 10 20 20) (30, 30)) = true.
Proof.
  assert (Hw : 0 < rw (Rect 10 10 20 20)) by (simpl; lia).
  assert (Hh : 0 < rh (Rect 10 10 20 20)) by (simpl; lia).
  assert (Hb : on_boundary (Rect 10 10 20 20) (30, 30)).
  { unfold on_boundary, in_closed_rect, strictly_inside; simpl; lia. }
  split; [exact Hw | split; [exact Hh | split; [exact Hb |]]].
  exact (proj1 (proj2 (point_inside_closed_region _ _ Hw Hh)) Hb).
Defined.

End Containment.

(** ** The tracking loop *)

Section TrackingLoop.
Import Geometry Tracking.
Local Open Scope Z_scope.

Variable rect : Geometry.rect.



Lemma track_success (f : frame) (s : state) :
  success f = true ->
  track rect f s =
    {| in_roi := Some (containment rect f);
       prev_state := prev_state s;
       csv := csv s ++ [(fst (centre (roi f)), snd (centre (roi f)),
                         containment rect f)];
       fired := fired s;
       end_stream := end_stream s |}.
Proof.
  intros Hs. unfold track, containment. rewrite Hs.
  destruct (point_inside rect (centre (roi f))) as [inside c]. reflexivity.
Qed.




(** C2, as the code has it: when the first frame is tracked and its centre
    is inside the region, the comparison reads [prev_state], which no
    statement has assigned, and the loop ends with a [NameError]. *)
Theorem prev_state_read_before_assignment (f : frame) (rest : list frame) :
  success f = true ->
  containment rect f = true ->
  exists s,
    loop rect (f :: rest) initial = Raised (NameError "prev_state") s /\
    fired s = [] /\ prev_state s = None.
Proof.
  intros Hs Hc. cbn [loop]. unfold body. rewrite track_success by exact Hs.
  unfold rising. cbn [in_roi prev_state load initial]. rewrite Hc.
  eexists. split; [reflexivity |]. split; reflexivity.
Qed.

(** C4, as the code has it: when the tracker fails on the first frame the
    edge test reads [in_roi], which no statement has assigned, and the loop
    ends with a [NameError] instead of going on to the next frame. *)
Theorem tracker_failure_on_first_frame (f : frame) (rest : list frame) :
  success f = false ->
  loop rect (f :: rest) initial = Raised (NameError "in_roi") initial.
Proof.
  intros Hs. cbn [loop]. unfold body, track. rewrite Hs. reflexivity.
Qed.

(** Once both names are bound, a frame on which the tracker fails writes no
    record, calls [play_stim.set()] not at all, and the loop goes on. *)
Lemma tracker_failure_later (f : frame) (s : state) (cur : bool) :
  success f = false ->
  key f <> 27 ->
  in_roi s = Some cur ->
  prev_state s = Some cur ->
  body rect f s =
    inr ({| in_roi := Some cur; prev_state := Some cur; csv := csv s;
            fired := fired s ++ [false]; end_stream := end_stream s |},
         false).
Proof.
  intros Hs Hk Hin Hprev. unfold body, track, rising. rewrite Hs, Hin, Hprev.
  apply Z.eqb_neq in Hk. rewrite Hk. cbn [load].
  destruct cur; reflexivity.
Qed.

End TrackingLoop.


(** The first frame tracked inside the region. *)
Lemma prev_state_read_before_assignment_witness :
  exists s : Tracking.state,
    Tracking.loop Tracking.region [Tracking.frame_inside] Tracking.initial =
      Tracking.Raised (NameError "prev_state") s /\
    Tracking.fired s = [] /\ Tracking.prev_state s = None.
Proof.
  apply (prev_state_read_before_assignment Tracking.region
           Tracking.frame_inside []); reflexivity.
Defined.

(** The tracker failing on the first frame. *)
Lemma tracker_failure_on_first_frame_witness :
  Tracking.loop Tracking.region
    [Tracking.frame_lost; Tracking.frame_outside] Tracking.initial =
  Tracking.Raised (NameError "in_roi") Tracking.initial.
Proof.
  apply (tracker_failure_on_first_frame Tracking.region Tracking.frame_lost
           [Tracking.frame_outside]); reflexivity.
Defined.

(** ** The audio processes after [end_stream.set()] *)

Section Shutdown.
Import Workers.

Lemma play_sound_add (n m : nat) (ev : events) (w : bg) :
  play_sound (n + m) ev w = play_sound m ev (play_sound n ev w).
Proof.
  revert w. induction n as [| n IH]; intros w; [reflexivity |].
  cbn [Nat.add play_sound].
  destruct (play_sound_step ev w) as [w' |] eqn:Hstep.
  - apply IH.
  - destruct m; cbn [play_sound]; [| rewrite Hstep]; reflexivity.
Qed.

Lemma trigger_stim_add (n m : nat) (ev : events) (s : stim) :
  trigger_stim (n + m) ev s =
    trigger_stim m (fst (trigger_stim n ev s)) (snd (trigger_stim n ev s)).
Proof.
  revert ev s. induction n as [| n IH]; intros ev s; [reflexivity |].
  cbn [Nat.add trigger_stim].
  destruct (trigger_stim_step ev s) as [[ev' s'] |] eqn:Hstep.
  - apply IH.
  - cbn [fst snd].
    destruct m; cbn [trigger_stim]; [| rewrite Hstep]; reflexivity.
Qed.


Lemma trigger_stim_stuck (n : nat) (ev : events) (s : stim) :
  trigger_stim_step ev s = None -> trigger_stim n ev s = (ev, s).
Proof.
  intros H. destruct n; cbn [trigger_stim]; [| rewrite H]; reflexivity.
Qed.



Ltac stim_eval Hend Hplay :=
  cbn; unfold trigger_stim_step, stim_goto; cbn; rewrite ?Hend, ?Hplay; cbn.




End Shutdown.



(** ** The calibration loop *)

Section CalibrationLoop.
Import PyFloat Calibration.


Lemma isfloat_false (u : string) :
  isfloat u = false -> exists e, float u = inl e.
Proof.
  unfold isfloat. destruct (float u) as [e | a]; [| discriminate].
  intros _. exists e. reflexivity.
Qed.

Lemma parsed_app (l1 l2 : list string) :
  parsed (l1 ++ l2) = parsed l1 ++ parsed l2.
Proof.
  induction l1 as [| u l1 IH]; [reflexivity |].
  cbn [app parsed]. destruct (float u); [exact IH |].
  rewrite IH. reflexivity.
Qed.






End CalibrationLoop.



(** ** Arrays: sizes and samples of the numpy operations *)

Section Arrays.
Import Synthesis.
Local Open Scope Z_scope.

Lemma size_nonneg (a : array) : 0 <= size a.
Proof. unfold size. lia. Qed.

Lemma size_app (a b : array) : size (a ++ b) = size a + size b.
Proof. unfold size. rewrite length_app. lia. Qed.

Lemma size_firstn (n : Z) (a : array) :
  0 <= n <= size a -> size (firstn (Z.to_nat n) a) = n.
Proof. unfold size. intros H. rewrite length_firstn. lia. Qed.

Lemma size_skipn (n : Z) (a : array) :
  0 <= n <= size a -> size (skipn (Z.to_nat n) a) = size a - n.
Proof. unfold size. intros H. rewrite length_skipn. lia. Qed.

Lemma size_rev (a : array) : size (rev a) = size a.
Proof. unfold size. rewrite length_rev. reflexivity. Qed.

Lemma size_map_seq (f : nat -> Q) (n : Z) :
  0 <= n -> size (map f (seq 0 (Z.to_nat n))) = n.
Proof. unfold size. intros H. rewrite length_map, length_seq. lia. Qed.

Lemma size_map (f : Q -> Q) (a : array) : size (map f a) = size a.
Proof. unfold size. rewrite length_map. reflexivity. Qed.

Lemma size_repeat (x : Q) (n : Z) :
  0 <= n -> size (repeat x (Z.to_nat n)) = n.
Proof. unfold size. intros H. rewrite repeat_length. lia. Qed.

Lemma length_zip_mul (a : array) : forall b : array,
  List.length a = List.length b ->
  List.length (zip_mul a b) = List.length a.
Proof.
  induction a as [| x a IH]; intros [| y b] H; cbn in *; try congruence.
  rewrite IH; congruence.
Qed.

Lemma size_zip_mul (a b : array) :
  size a = size b -> size (zip_mul a b) = size a.
Proof. unfold size. intros H. rewrite length_zip_mul; lia. Qed.

Lemma nth_zip_mul (a : array) : forall (b : array) (k : nat),
  (k < List.length a)%nat -> (k < List.length b)%nat ->
  nth k (zip_mul a b) 0%Q = (nth k a 0 * nth k b 0)%Q.
Proof.
  induction a as [| x a IH]; intros [| y b] k Ha Hb; cbn in *; try lia.
  destruct k as [| k]; [reflexivity |]. apply IH; lia.
Qed.

Lemma get_zip_mul (a b : array) (k : Z) :
  0 <= k < size a -> k < size b ->
  get (zip_mul a b) k = (get a k * get b k)%Q.
Proof. unfold get, size. intros Ha Hb. apply nth_zip_mul; lia. Qed.

Lemma get_app_l (a b : array) (k : Z) :
  0 <= k < size a -> get (a ++ b) k = get a k.
Proof. unfold get, size. intros H. apply app_nth1. lia. Qed.

Lemma get_app_r (a b : array) (k : Z) :
  size a <= k -> get (a ++ b) k = get b (k - size a).
Proof.
  unfold get, size. intros H. rewrite app_nth2 by lia.
  f_equal. lia.
Qed.

Lemma get_firstn (n : Z) (a : array) (k : Z) :
  0 <= k < n -> get (firstn (Z.to_nat n) a) k = get a k.
Proof.
  unfold get. intros H. rewrite nth_firstn.
  destruct (Nat.ltb_spec (Z.to_nat k) (Z.to_nat n)); [reflexivity | lia].
Qed.

Lemma get_skipn (n : Z) (a : array) (k : Z) :
  0 <= n -> 0 <= k -> get (skipn (Z.to_nat n) a) k = get a (k + n).
Proof.
  unfold get. intros Hn Hk. rewrite nth_skipn. f_equal. lia.
Qed.

Lemma get_rev (a : array) (k : Z) :
  0 <= k < size a -> get (rev a) k = get a (size a - 1 - k).
Proof.
  unfold get, size. intros H. rewrite rev_nth by lia. f_equal. lia.
Qed.

Lemma get_map_seq (f : nat -> Q) (n k : Z) :
  0 <= k < n -> get (map f (seq 0 (Z.to_nat n))) k = f (Z.to_nat k).
Proof.
  unfold get. intros H.
  rewrite (nth_indep _ 0%Q (f 0%nat)) by (rewrite length_map, length_seq; lia).
  rewrite map_nth, seq_nth by lia. reflexivity.
Qed.

Lemma get_map (f : Q -> Q) (a : array) (k : Z) :
  0 <= k < size a -> get (map f a) k = f (get a k).
Proof.
  unfold get, size. intros H.
  rewrite (nth_indep _ 0%Q (f 0%Q)) by (rewrite length_map; lia).
  apply map_nth.
Qed.

Lemma get_repeat (x : Q) (n k : Z) :
  0 <= k < n -> get (repeat x (Z.to_nat n)) k = x.
Proof. unfold get. intros H. apply nth_repeat_lt. lia. Qed.

Lemma get_in (a : array) (k : Z) : 0 <= k < size a -> In (get a k) a.
Proof. unfold get, size. intros H. apply nth_In. lia. Qed.

Lemma normalized_get (a : array) :
  normalized a <-> forall k, 0 <= k < size a -> (-1 <= get a k /\ get a k <= 1)%Q.
Proof.
  unfold normalized. rewrite Forall_forall. split.
  - intros H k Hk. apply H, get_in, Hk.
  - intros H x Hx. destruct (In_nth _ _ 0%Q Hx) as (i & Hi & <-).
    specialize (H (Z.of_nat i)). unfold get, size in H.
    rewrite Nat2Z.id in H. apply H. lia.
Qed.

(** *** The operations that can raise *)

Lemma normal_eq (rng : nat -> Q) (n : Z) :
  0 <= n -> normal rng n = Some (map rng (seq 0 (Z.to_nat n))).
Proof.
  intros H. unfold normal. rewrite (proj2 (Z.ltb_ge n 0)) by lia. reflexivity.
Qed.

Lemma mul_eq (a b : array) :
  size a = size b -> mul a b = Some (zip_mul a b).
Proof.
  unfold size, mul. intros H.
  rewrite (proj2 (Nat.eqb_eq _ _)) by lia. reflexivity.
Qed.

Lemma bound_inside (len i : Z) : 0 <= i <= len -> bound len i = i.
Proof.
  intros H. unfold bound. rewrite (proj2 (Z.ltb_ge i 0)) by lia. lia.
Qed.

Lemma bound_negative (len i : Z) :
  i < 0 -> 0 <= i + len -> bound len i = i + len.
Proof.
  intros H1 H2. unfold bound. rewrite (proj2 (Z.ltb_lt i 0)) by lia. lia.
Qed.

Lemma set_slice_eq (a : array) (i j : Z) (v : array) :
  0 <= i <= j -> j <= size a -> size v = j - i ->
  set_slice a i j v =
    Some (firstn (Z.to_nat i) a ++ v ++ skipn (Z.to_nat j) a).
Proof.
  intros Hij Hj Hv. unfold set_slice.
  rewrite !bound_inside by lia. unfold broadcast, size in *.
  rewrite (proj2 (Nat.eqb_eq _ _)) by lia. cbn [bind].
  replace (Z.to_nat i + Z.to_nat (j - i))%nat with (Z.to_nat j) by lia.
  reflexivity.
Qed.

Lemma slice_eq (a : array) (i j : Z) :
  0 <= i <= j -> j <= size a ->
  slice a i j = firstn (Z.to_nat (j - i)) (skipn (Z.to_nat i) a).
Proof.
  intros Hij Hj. unfold slice. rewrite !bound_inside by lia. reflexivity.
Qed.

Lemma size_slice (a : array) (i j : Z) :
  0 <= i <= j -> j <= size a -> size (slice a i j) = j - i.
Proof.
  intros Hij Hj. rewrite slice_eq by lia.
  rewrite size_firstn; [reflexivity |]. rewrite size_skipn; lia.
Qed.

Lemma get_slice (a : array) (i j k : Z) :
  0 <= i <= j -> j <= size a -> 0 <= k < j - i ->
  get (slice a i j) k = get a (k + i).
Proof.
  intros Hij Hj Hk. rewrite slice_eq by lia.
  rewrite get_firstn by lia. apply get_skipn; lia.
Qed.

End Arrays.

(** ** [np.linspace] *)

Section Linspace.
Import Synthesis.
Local Open Scope Z_scope.

Lemma linspace_spec (start stop : Q) (num : Z) :
  0 <= num ->
  exists l,
    linspace start stop num = Some l /\
    size l = num /\
    forall k, 0 <= k < num -> get l k = lin_value start stop num k.
Proof.
  intros Hnum. unfold linspace, lin_value.
  rewrite (proj2 (Z.ltb_ge num 0)) by lia.
  destruct (Z.eqb_spec num 0) as [-> | H0].
  { exists []. repeat split. intros k Hk. lia. }
  destruct (Z.eqb_spec num 1) as [-> | H1].
  { exists [start]. repeat split. intros k Hk.
    replace k with 0 by lia. reflexivity. }
  eexists. split; [reflexivity |]. split.
  - rewrite size_app, size_map_seq by lia. unfold size. cbn. lia.
  - intros k Hk. destruct (Z.eqb_spec k (num - 1)) as [-> | Hlast].
    + rewrite get_app_r by (rewrite size_map_seq; lia).
      rewrite size_map_seq by lia. rewrite Z.sub_diag. reflexivity.
    + rewrite get_app_l by (rewrite size_map_seq; lia).
      rewrite get_map_seq by lia. rewrite Z2Nat.id by lia. reflexivity.
Qed.

Lemma lin_value_first (start stop : Q) (num : Z) :
  1 <= num -> (lin_value start stop num 0 == start)%Q.
Proof.
  intros H. unfold lin_value.
  destruct (Z.eqb_spec num 1); [reflexivity |].
  destruct (Z.eqb_spec 0 (num - 1)); [lia |].
  change (inject_Z 0) with 0%Q. rewrite Qmult_0_l, Qplus_0_l. reflexivity.
Qed.

Lemma lin_value_last (start stop : Q) (num : Z) :
  2 <= num -> lin_value start stop num (num - 1) = stop.
Proof.
  intros H. unfold lin_value.
  destruct (Z.eqb_spec num 1); [lia |].
  rewrite Z.eqb_refl. reflexivity.
Qed.

(** A sample strictly before the last one is a convex combination of the
    two end points. *)
Lemma lin_value_convex (start stop : Q) (num k : Z) :
  0 <= k < num - 1 ->
  exists t : Q,
    (0 <= t /\ t <= 1)%Q /\
    (lin_value start stop num k == start + t * (stop - start))%Q /\
    forall k', k <= k' < num - 1 ->
      exists t' : Q,
        (t <= t' /\ t' <= 1)%Q /\
        (lin_value start stop num k' == start + t' * (stop - start))%Q.
Proof.
  intros Hk.
  assert (Hpos : (0 < inject_Z (num - 1))%Q).
  { change 0%Q with (inject_Z 0). rewrite <- Zlt_Qlt. lia. }
  assert (Hne : ~ (inject_Z (num - 1) == 0)%Q).
  { intros E. rewrite E in Hpos. apply (Qlt_irrefl _ Hpos). }
  assert (Hform : forall i, 0 <= i < num - 1 ->
            (0 <= inject_Z i / inject_Z (num - 1))%Q /\
            (inject_Z i / inject_Z (num - 1) <= 1)%Q /\
            (lin_value start stop num i ==
               start + (inject_Z i / inject_Z (num - 1)) * (stop - start))%Q).
  { intros i Hi. split; [| split].
    - apply Qle_shift_div_l; [exact Hpos |]. rewrite Qmult_0_l.
      change 0%Q with (inject_Z 0). rewrite <- Zle_Qle. lia.
    - apply Qle_shift_div_r; [exact Hpos |]. rewrite Qmult_1_l.
      rewrite <- Zle_Qle. lia.
    - unfold lin_value.
      destruct (Z.eqb_spec num 1); [lia |].
      destruct (Z.eqb_spec i (num - 1)); [lia |].
      field. exact Hne. }
  destruct (Hform k Hk) as (Ht0 & Ht1 & Hval).
  exists (inject_Z k / inject_Z (num - 1))%Q.
  split; [split; assumption |]. split; [exact Hval |].
  intros k' Hk'.
  destruct (Hform k' ltac:(lia)) as (Ht0' & Ht1' & Hval').
  exists (inject_Z k' / inject_Z (num - 1))%Q.
  split; [split; [| assumption] | exact Hval'].
  apply Qmult_le_compat_r.
  - rewrite <- Zle_Qle. lia.
  - apply Qlt_le_weak, Qinv_lt_0_compat, Hpos.
Qed.

Lemma lin_value_bounds (lo hi start stop : Q) (num k : Z) :
  (lo <= start)%Q -> (start <= hi)%Q -> (lo <= stop)%Q -> (stop <= hi)%Q ->
  0 <= k < num ->
  (lo <= lin_value start stop num k /\ lin_value start stop num k <= hi)%Q.
Proof.
  intros H1 H2 H3 H4 Hk.
  destruct (Z.eq_dec num 1) as [-> | Hn1].
  { unfold lin_value. cbn. split; assumption. }
  destruct (Z.eq_dec k (num - 1)) as [-> | Hlast].
  { rewrite lin_value_last by lia. split; assumption. }
  destruct (lin_value_convex start stop num k ltac:(lia))
    as (t & [Ht0 Ht1] & Hval & _).
  rewrite Hval. split; nra.
Qed.

Lemma lin_value_mono (start stop : Q) (num i j : Z) :
  (start <= stop)%Q ->
  0 <= i <= j -> j < num ->
  (lin_value start stop num i <= lin_value start stop num j)%Q.
Proof.
  intros Hle Hij Hj.
  destruct (Z.eq_dec num 1) as [-> | Hn1].
  { unfold lin_value. cbn. apply Qle_refl. }
  destruct (Z.eq_dec j (num - 1)) as [-> | Hlast].
  { rewrite lin_value_last by lia.
    apply (lin_value_bounds start stop); try assumption;
      try apply Qle_refl; lia. }
  destruct (lin_value_convex start stop num i ltac:(lia))
    as (t & [Ht0 Ht1] & Hval & Hlater).
  destruct (Hlater j ltac:(lia)) as (t' & [Htt' Ht1'] & Hval').
  rewrite Hval, Hval'. nra.
Qed.

End Linspace.

(** ** [noise_generator] *)

Section NoiseGenerator.
Import Synthesis.
Local Open Scope Z_scope.

Variable amplitude : Q.
Variables duration fs : Z.
Variable rng : nat -> Q.
Hypothesis fs_nonneg : 0 <= fs.
Hypothesis duration_pos : 1 <= duration.

Lemma window_bounds :
  0 <= Z.quot fs 4 /\ 2 * Z.quot fs 4 <= fs * duration.
Proof.
  rewrite Z.quot_div_nonneg by lia.
  assert (fs <= fs * duration) by nia.
  pose proof (Z.div_pos fs 4). 
  pose proof (Z.mul_div_le fs 4). lia.
Qed.

Lemma noise_generator_spec :
  exists w,
    noise_generator amplitude duration fs rng = Some w /\
    size w = fs * duration /\
    forall k, 0 <= k < fs * duration ->
      get w k = (ramped amplitude duration fs rng k * rng (Z.to_nat k))%Q.
Proof.
  destruct window_bounds as [HW0 HW].
  unfold noise_generator, ramped.
  set (W := Z.quot fs 4) in *. set (N := fs * duration) in *.
  rewrite normal_eq by lia. cbn [bind].
  set (noise := map rng (seq 0 (Z.to_nat N))).
  assert (Hnoise : size noise = N) by (apply size_map_seq; lia).
  destruct (linspace_spec 0 amplitude W HW0) as (ramp & -> & Hramp & Hget).
  cbn [bind].
  set (wave0 := map (Qmult amplitude) noise).
  assert (Hwave0 : size wave0 = N) by (unfold wave0; rewrite size_map; exact Hnoise).
  rewrite (set_slice_eq wave0 0 W ramp) by lia. cbn [bind].
  set (wave1 := firstn (Z.to_nat 0) wave0 ++ ramp ++ skipn (Z.to_nat W) wave0).
  assert (Hwave1 : size wave1 = N).
  { unfold wave1. rewrite !size_app, size_firstn, size_skipn by lia. lia. }
  rewrite Hwave1.
  rewrite (set_slice_eq wave1 (N - W) N (rev ramp))
    by (rewrite ?size_rev; lia).
  cbn [bind].
  set (wave2 := firstn (Z.to_nat (N - W)) wave1 ++ rev ramp
                ++ skipn (Z.to_nat N) wave1).
  assert (Hwave2 : size wave2 = N).
  { unfold wave2. rewrite !size_app, size_firstn, size_rev, size_skipn by lia.
    lia. }
  rewrite mul_eq by lia.
  eexists. split; [reflexivity |]. split.
  { rewrite size_zip_mul by lia. exact Hwave2. }
  intros k Hk. rewrite get_zip_mul by lia.
  replace (get noise k) with (rng (Z.to_nat k))
    by (symmetry; apply get_map_seq; lia).
  f_equal.
  unfold wave2.
  destruct (Z.ltb_spec k W) as [HkW | HkW].
  - rewrite get_app_l by (rewrite size_firstn; lia).
    rewrite get_firstn by lia. unfold wave1.
    rewrite get_app_r by (rewrite size_firstn; lia).
    rewrite size_firstn by lia. rewrite Z.sub_0_r.
    rewrite get_app_l by lia. apply Hget. lia.
  - destruct (Z.leb_spec (N - W) k) as [Hend | Hmid].
    + rewrite get_app_r by (rewrite size_firstn; lia).
      rewrite size_firstn by lia.
      rewrite get_app_l by (rewrite size_rev; lia).
      rewrite get_rev by lia. rewrite Hramp.
      replace (W - 1 - (k - (N - W))) with (N - 1 - k) by lia.
      apply Hget. lia.
    + rewrite get_app_l by (rewrite size_firstn; lia).
      rewrite get_firstn by lia. unfold wave1.
      rewrite get_app_r by (rewrite size_firstn; lia).
      rewrite size_firstn by lia. rewrite Z.sub_0_r.
      rewrite get_app_r by lia. rewrite Hramp.
      rewrite get_skipn by lia.
      replace (k - W + W) with k by lia.
      unfold wave0. rewrite get_map by lia.
      unfold noise. rewrite get_map_seq by lia. reflexivity.
Qed.

End NoiseGenerator.

(** ** [wave_generator] *)

Section WaveGenerator.
Import PrimFloat Synthesis.
Local Open Scope Z_scope.

Lemma py_int_rise : py_int (44100 * 0.4)%float = Some 17640.
Proof. vm_compute. reflexivity. Qed.

Lemma py_int_plateau : py_int (44100 * 0.6)%float = Some 26460.
Proof. vm_compute. reflexivity. Qed.

Lemma py_int_window : py_int (44100 * 0.5)%float = Some 22050.
Proof. vm_compute. reflexivity. Qed.

Lemma size_concat_repeat (a : array) (r : nat) :
  size (List.concat (repeat a r)) = Z.of_nat r * size a.
Proof.
  induction r as [| r IH]; [reflexivity |].
  cbn [repeat List.concat]. rewrite size_app, IH. lia.
Qed.

Lemma get_concat_repeat (a : array) (r : nat) : forall k,
  0 <= k < Z.of_nat r * size a ->
  get (List.concat (repeat a r)) k = get a (k mod size a).
Proof.
  induction r as [| r IH]; intros k Hk; [lia |].
  cbn [repeat List.concat].
  destruct (Z.lt_ge_cases k (size a)) as [Hlt | Hge].
  - rewrite get_app_l by lia. rewrite Z.mod_small by lia. reflexivity.
  - rewrite get_app_r by lia. rewrite IH by lia.
    rewrite <- (Z.mod_add (k - size a) 1 (size a)) by lia.
    do 2 f_equal. lia.
Qed.

Lemma size_tile (a : array) (reps : Z) :
  0 <= reps -> size (tile a reps) = reps * size a.
Proof.
  intros H. unfold tile. rewrite size_concat_repeat, Z2Nat.id by lia.
  reflexivity.
Qed.

Lemma get_tile (a : array) (reps k : Z) :
  0 <= k < reps * size a -> get (tile a reps) k = get a (k mod size a).
Proof.
  intros H. unfold tile. apply get_concat_repeat.
  pose proof (size_nonneg a). rewrite Z2Nat.id by nia. exact H.
Qed.

Variables base peak : Q.

Lemma period_spec :
  exists p,
    period base peak = Some p /\
    size p = 44100 /\
    forall k, 0 <= k < 44100 ->
      get p k = if k <? 17640 then lin_value base peak 17640 k else base.
Proof.
  unfold period. rewrite py_int_rise, py_int_plateau. cbn [bind].
  destruct (linspace_spec base peak 17640 ltac:(lia)) as (rise & -> & Hsize & Hget).
  cbn [bind]. unfold np_repeat.
  change (26460 <? 0) with false. cbn [bind].
  eexists. split; [reflexivity |]. split.
  - rewrite size_app, size_repeat, Hsize by lia. reflexivity.
  - intros k Hk. destruct (Z.ltb_spec k 17640) as [Hlt | Hge].
    + rewrite get_app_l by lia. apply Hget. lia.
    + rewrite get_app_r by lia. rewrite Hsize. apply get_repeat. lia.
Qed.

Lemma envelope_spec :
  exists env,
    envelope base peak = Some env /\
    size env = 441000 /\
    forall k, 0 <= k < 441000 ->
      get env k =
        if k mod 44100 <? 17640
        then lin_value base peak 17640 (k mod 44100)
        else base.
Proof.
  unfold envelope.
  destruct period_spec as (p & -> & Hsize & Hget). cbn [bind].
  eexists. split; [reflexivity |]. split.
  - rewrite size_tile, Hsize by lia. reflexivity.
  - intros k Hk. rewrite get_tile by (rewrite Hsize; lia).
    rewrite Hsize. apply Hget. apply Z.mod_pos_bound. lia.
Qed.

Lemma wave_generator_spec (rng : nat -> Q) :
  exists w env,
    wave_generator base peak rng = Some w /\
    envelope base peak = Some env /\
    size w = 441000 /\
    size env = 441000 /\
    forall k, 0 <= k < 441000 ->
      get w k = (get env k * rng (Z.to_nat k))%Q.
Proof.
  unfold wave_generator.
  destruct envelope_spec as (env & Henv & Hsize & _). rewrite Henv.
  cbn [bind]. change (44100 * 10) with 441000.
  rewrite normal_eq by lia. cbn [bind].
  rewrite mul_eq by (rewrite size_map_seq; lia).
  exists (zip_mul env (map rng (seq 0 (Z.to_nat 441000)))), env.
  split; [reflexivity |]. split; [reflexivity |].
  split; [rewrite size_zip_mul; rewrite ?size_map_seq; lia |].
  split; [exact Hsize |].
  intros k Hk. rewrite get_zip_mul by (rewrite ?size_map_seq; lia).
  rewrite get_map_seq by lia. reflexivity.
Qed.

End WaveGenerator.

(** ** The two buffers *)

Section Buffers.
Import Synthesis.
Local Open Scope Z_scope.

(** C5. For [base <= peak], [wave_generator] returns 10 * 44100 samples,
    the samples of the envelope times the noise.  The envelope is one
    segment of 44100 samples repeated 10 times; over the first 17640
    = 0.4 * 44100 samples of a segment it rises monotonically from [base]
    to [peak], over the other 26460 = 0.6 * 44100 samples it stays at
    [base]. *)
Theorem stimulus_buffer_shape (base peak : Q) (rng : nat -> Q) :
  (base <= peak)%Q ->
  exists w env,
    wave_generator base peak rng = Some w /\
    envelope base peak = Some env /\
    size w = 10 * 44100 /\
    (forall k, 0 <= k < 10 * 44100 ->
       get w k = (get env k * rng (Z.to_nat k))%Q) /\
    (forall j i, 0 <= j < 10 -> 0 <= i < 44100 ->
       get env (j * 44100 + i) = get env i) /\
    (get env 0 == base)%Q /\
    get env 17639 = peak /\
    (forall i i', 0 <= i <= i' -> i' < 17640 ->
       (get env i <= get env i')%Q) /\
    (forall i, 17640 <= i < 44100 -> get env i = base).
Proof.
  intros Hle.
  destruct (wave_generator_spec base peak rng)
    as (w & env & Hw & Henv & Hsize & _ & Hget).
  destruct (envelope_spec base peak) as (env' & Henv' & _ & Hval).
  rewrite Henv in Henv'. injection Henv' as <-.
  exists w, env. split; [exact Hw |]. split; [exact Henv |].
  split; [exact Hsize |]. split; [exact Hget |].
  assert (Hseg : forall i, 0 <= i < 44100 ->
            get env i =
              if i <? 17640 then lin_value base peak 17640 i else base).
  { intros i Hi. rewrite Hval by lia. rewrite Z.mod_small by lia.
    reflexivity. }
  split; [| split; [| split; [| split]]].
  - intros j i Hj Hi. rewrite (Hval (j * 44100 + i)) by lia.
    rewrite Z.add_comm, Z.mod_add, Z.mod_small by lia.
    rewrite Hseg by lia. reflexivity.
  - rewrite Hseg by lia. change (0 <? 17640) with true. cbv iota.
    apply lin_value_first. lia.
  - rewrite Hseg by lia. change (17639 <? 17640) with true. cbv iota.
    apply (lin_value_last base peak 17640). lia.
  - intros i i' Hi Hi'. rewrite !Hseg by lia.
    rewrite !(proj2 (Z.ltb_lt _ 17640)) by lia.
    apply lin_value_mono; [exact Hle | lia | lia].
  - intros i Hi. rewrite Hseg by lia.
    rewrite (proj2 (Z.ltb_ge i 17640)) by lia. reflexivity.
Qed.

Lemma unit_product (x y : Q) :
  (-1 <= x /\ x <= 1)%Q -> (-1 <= y /\ y <= 1)%Q ->
  (-1 <= x * y /\ x * y <= 1)%Q.
Proof. intros [Hx1 Hx2] [Hy1 Hy2]. split; nra. Qed.

Lemma unit_of_amplitude (x : Q) :
  (0 <= x /\ x <= 1)%Q -> (-1 <= x /\ x <= 1)%Q.
Proof. intros [H0 H1]. split; lra. Qed.

(** C8, as the code has it.  Nothing clips the samples: they lie in
    [-1, 1] for amplitudes in [0, 1] when every noise value lies in
    [-1, 1] as well. *)
Theorem buffers_normalized_for_bounded_noise
    (amplitude base peak : Q) (duration fs : Z) (rng : nat -> Q) :
  0 <= fs -> 1 <= duration ->
  (0 <= amplitude /\ amplitude <= 1)%Q ->
  (0 <= base /\ base <= 1)%Q ->
  (0 <= peak /\ peak <= 1)%Q ->
  (forall i, (-1 <= rng i /\ rng i <= 1)%Q) ->
  (exists w,
     noise_generator amplitude duration fs rng = Some w /\ normalized w) /\
  (exists w, wave_generator base peak rng = Some w /\ normalized w).
Proof.
  intros Hfs Hdur [Ha0 Ha1] [Hb0 Hb1] [Hp0 Hp1] Hrng. split.
  - destruct (noise_generator_spec amplitude duration fs rng Hfs Hdur)
      as (w & Hw & Hsize & Hget).
    destruct (window_bounds duration fs Hfs Hdur) as [HW0 HW].
    exists w. split; [exact Hw |]. apply normalized_get.
    intros k Hk. rewrite Hget by lia. apply unit_product; [| apply Hrng].
    unfold ramped.
    destruct (Z.ltb_spec k (Z.quot fs 4)).
    + apply unit_of_amplitude.
      apply (lin_value_bounds 0 1 0 amplitude); try lra; lia.
    + destruct (Z.leb_spec (fs * duration - Z.quot fs 4) k).
      * apply unit_of_amplitude.
        apply (lin_value_bounds 0 1 0 amplitude); try lra; lia.
      * apply unit_product; [apply unit_of_amplitude; split; assumption |].
        apply Hrng.
  - destruct (wave_generator_spec base peak rng)
      as (w & env & Hw & Henv & Hsize & _ & Hget).
    destruct (envelope_spec base peak) as (env' & Henv' & _ & Hval).
    rewrite Henv in Henv'. injection Henv' as <-.
    exists w. split; [exact Hw |]. apply normalized_get.
    intros k Hk. rewrite Hget, Hval by lia.
    apply unit_product; [| apply Hrng]. apply unit_of_amplitude.
    pose proof (Z.mod_pos_bound k 44100 ltac:(lia)).
    destruct (Z.ltb_spec (k mod 44100) 17640).
    + apply (lin_value_bounds 0 1 base peak); try assumption; lia.
    + split; assumption.
Qed.

End Buffers.

(** The stimulus for the default amplitudes 0.2 and 0.7. *)
Lemma stimulus_buffer_shape_witness :
  (2 # 10 <= 7 # 10)%Q /\
  exists w env,
    Synthesis.wave_generator (2 # 10) (7 # 10) (fun _ => 1 # 2) = Some w /\
    Synthesis.envelope (2 # 10) (7 # 10) = Some env /\
    Synthesis.size w = (10 * 44100)%Z /\
    Synthesis.get env 17639 = 7 # 10.
Proof.
  assert (H : (2 # 10 <= 7 # 10)%Q) by (unfold Qle; simpl; lia).
  split; [exact H |].
  destruct (stimulus_buffer_shape (2 # 10) (7 # 10) (fun _ => 1 # 2) H)
    as (w & env & Hw & Henv & Hsize & _ & _ & _ & Hpeak & _).
  exists w, env. repeat split; assumption.
Defined.

(** Both buffers for amplitudes 0.2 and 0.7 and a noise that is constantly
    0.5. *)
Lemma buffers_normalized_for_bounded_noise_witness :
  (exists w,
     Synthesis.noise_generator (2 # 10) 5 44100 (fun _ => 1 # 2) = Some w /\
     Synthesis.normalized w) /\
  (exists w,
     Synthesis.wave_generator (2 # 10) (7 # 10) (fun _ => 1 # 2) = Some w /\
     Synthesis.normalized w).
Proof.
  apply (buffers_normalized_for_bounded_noise
           (2 # 10) (2 # 10) (7 # 10) 5 44100 (fun _ => 1 # 2)).
  - lia.
  - lia.
  - split; unfold Qle; simpl; lia.
  - split; unfold Qle; simpl; lia.
  - split; unfold Qle; simpl; lia.
  - intros i. split; unfold Qle; simpl; lia.
Defined.

(** C8 as stated fails: a noise value of 1.1 at amplitude 1 gives the
    sample 1.21 in the middle of the buffer of [noise_generator]. *)
Lemma loud_noise_exceeds_unit :
  exists w,
    Synthesis.noise_generator 1 5 44100 (fun _ => 11 # 10) = Some w /\
    Synthesis.get w 100000 = ((1 * (11 # 10)) * (11 # 10))%Q /\
    ~ Synthesis.normalized w.
Proof.
  destruct (noise_generator_spec 1 5 44100 (fun _ => 11 # 10))
    as (w & Hw & Hsize & Hget); [lia | lia |].
  assert (Hk : Synthesis.get w 100000 = ((1 * (11 # 10)) * (11 # 10))%Q).
  { rewrite Hget by lia. unfold Synthesis.ramped.
    change (100000 <? Z.quot 44100 4)%Z with false.
    change (44100 * 5 - Z.quot 44100 4 <=? 100000)%Z with false.
    reflexivity. }
  exists w. split; [exact Hw |]. split; [exact Hk |].
  intros Hnorm. rewrite normalized_get in Hnorm.
  destruct (Hnorm 100000%Z) as [_ Hup]; [rewrite Hsize; lia |].
  rewrite Hk in Hup. revert Hup. unfold Qle. simpl. lia.
Qed.

(** ** The windowed background buffer *)

Section Background.
Import Synthesis.
Local Open Scope Z_scope.

Lemma slice_from_end (a : array) (i : Z) :
  i < 0 -> 0 <= size a + i ->
  slice a i (size a) =
    firstn (Z.to_nat (- i)) (skipn (Z.to_nat (size a + i)) a).
Proof.
  intros Hi H. pose proof (size_nonneg a) as Hsize. unfold slice.
  rewrite (bound_negative (size a) i), (bound_inside (size a) (size a))
    by lia.
  do 2 f_equal; f_equal; lia.
Qed.

Lemma set_slice_from_end (a : array) (i : Z) (v : array) :
  i < 0 -> 0 <= size a + i -> size v = - i ->
  set_slice a i (size a) v =
    Some (firstn (Z.to_nat (size a + i)) a ++ v
          ++ skipn (Z.to_nat (size a)) a).
Proof.
  intros Hi H Hv. pose proof (size_nonneg a) as Hsize. unfold set_slice.
  rewrite (bound_negative (size a) i), (bound_inside (size a) (size a))
    by lia.
  unfold broadcast. unfold size in *.
  rewrite (proj2 (Nat.eqb_eq _ _)) by lia. cbn [bind].
  replace (i + Z.of_nat (List.length a)) with (Z.of_nat (List.length a) + i)
    by lia.
  replace (Z.to_nat (Z.of_nat (List.length a) + i) +
           Z.to_nat (Z.of_nat (List.length a) - (Z.of_nat (List.length a) + i)))%nat
    with (Z.to_nat (Z.of_nat (List.length a))) by lia.
  reflexivity.
Qed.

Variables (rng coef : nat -> Q) (min_amp : Q).

(** C9. The background buffer has 50 * 44100 samples.  Its first sample is
    the first sample of [noise_generator] times the window coefficient 0,
    its last sample the last sample of [noise_generator] times the window
    coefficient the reversed half window ends with; both are zero, as the
    ramps of [noise_generator] start and end at zero.  So the buffer
    followed by itself has no jump at the splice. *)
Theorem background_ends_at_zero :
  exists b w,
    noise_generator min_amp 50 44100 rng = Some w /\
    background min_amp rng coef = Some b /\
    size b = 50 * 44100 /\
    get b 0 = (get w 0 * coef 0%nat)%Q /\
    get b (size b - 1) = (get w (size w - 1) * coef (Z.to_nat 11025))%Q /\
    (get b 0 == 0)%Q /\
    (get b (size b - 1) == 0)%Q /\
    forall eps : Q, (0 <= eps)%Q ->
      (Qabs (get b 0 - get b (size b - 1)) <= eps)%Q.
Proof.
  destruct (noise_generator_spec min_amp 50 44100 rng ltac:(lia) ltac:(lia))
    as (w & Hw & Hsize & Hget).
  change (44100 * 50) with 2205000 in Hsize, Hget.
  unfold background. rewrite Hw. cbn [bind].
  rewrite py_int_window. cbn [bind]. change (22050 / 2) with 11025.
  change (Z.opp 11025) with (-11025).
  set (hann := hanning coef 22050).
  assert (Hhann : size hann = 22050) by (apply size_map_seq; lia).
  set (head := zip_mul (slice w 0 11025) (slice hann 0 11025)).
  rewrite (mul_eq (slice w 0 11025) (slice hann 0 11025))
    by (rewrite !size_slice; lia).
  cbn [bind]. fold head.
  assert (Hhead : size head = 11025).
  { unfold head. rewrite size_zip_mul; rewrite !size_slice; lia. }
  rewrite (set_slice_eq w 0 11025 head) by lia. cbn [bind].
  set (b1 := firstn (Z.to_nat 0) w ++ head ++ skipn (Z.to_nat 11025) w).
  assert (Hb1 : size b1 = 2205000).
  { unfold b1. rewrite !size_app, size_firstn, size_skipn by lia. lia. }
  assert (Hrev : size (rev hann) = 22050) by (rewrite size_rev; exact Hhann).
  assert (Htailsize : size (slice b1 (-11025) (size b1)) = 11025).
  { rewrite slice_from_end by lia. rewrite size_firstn; [reflexivity |].
    rewrite size_skipn; lia. }
  set (tail := zip_mul (slice b1 (-11025) (size b1)) (slice (rev hann) 0 11025)).
  rewrite (mul_eq (slice b1 (-11025) (size b1)) (slice (rev hann) 0 11025))
    by (rewrite Htailsize, size_slice; lia).
  cbn [bind]. fold tail.
  assert (Htail : size tail = 11025).
  { unfold tail. rewrite size_zip_mul; rewrite Htailsize; [reflexivity |].
    rewrite size_slice; lia. }
  rewrite (set_slice_from_end b1 (-11025) tail) by lia.
  set (b := firstn (Z.to_nat (size b1 + -11025)) b1 ++ tail
            ++ skipn (Z.to_nat (size b1)) b1).
  assert (Hb : size b = 2205000).
  { unfold b. rewrite !size_app, size_firstn, size_skipn by lia. lia. }
  assert (Hfirst : get b 0 = (get w 0 * coef 0%nat)%Q).
  { unfold b. rewrite get_app_l by (rewrite size_firstn; lia).
    rewrite get_firstn by lia. unfold b1.
    rewrite get_app_r by (rewrite size_firstn; lia).
    rewrite size_firstn by lia. rewrite Z.sub_0_r.
    rewrite get_app_l by lia. unfold head.
    rewrite get_zip_mul by (rewrite !size_slice; lia).
    rewrite !get_slice by lia. cbn [Z.add]. unfold hann, hanning.
    rewrite get_map_seq by lia. reflexivity. }
  assert (Hlast : get b (size b - 1) =
                  (get w (size w - 1) * coef (Z.to_nat 11025))%Q).
  { rewrite Hb, Hsize. unfold b. rewrite Hb1.
    rewrite get_app_r by (rewrite size_firstn; lia).
    rewrite size_firstn by lia.
    rewrite get_app_l by lia. unfold tail.
    rewrite get_zip_mul by (rewrite ?Htailsize, ?size_slice by lia; lia).
    rewrite (get_slice (rev hann)) by lia.
    rewrite slice_from_end by lia. rewrite Hb1.
    rewrite get_firstn by lia. rewrite get_skipn by lia.
    rewrite get_rev by lia. rewrite Hhann. unfold b1.
    rewrite get_app_r by (rewrite size_firstn; lia).
    rewrite size_firstn by lia.
    rewrite get_app_r by lia. rewrite Hhead.
    rewrite get_skipn by lia. unfold hann, hanning.
    rewrite get_map_seq by lia.
    f_equal. }
  assert (Hw0 : (get w 0 == 0)%Q).
  { rewrite Hget by lia. unfold ramped.
    change (0 <? Z.quot 44100 4) with true. cbv iota.
    rewrite lin_value_first by (change (Z.quot 44100 4) with 11025; lia).
    apply Qmult_0_l. }
  assert (Hwn : (get w (size w - 1) == 0)%Q).
  { rewrite Hsize. rewrite Hget by lia. unfold ramped.
    change (2205000 - 1 <? Z.quot 44100 4) with false.
    change (44100 * 50 - Z.quot 44100 4 <=? 2205000 - 1) with true. cbv iota.
    change (44100 * 50 - 1 - (2205000 - 1)) with 0.
    rewrite lin_value_first by (change (Z.quot 44100 4) with 11025; lia).
    apply Qmult_0_l. }
  exists b, w. split; [reflexivity |]. split; [reflexivity |].
  split; [exact Hb |]. split; [exact Hfirst |]. split; [exact Hlast |].
  assert (Hb0 : (get b 0 == 0)%Q).
  { rewrite Hfirst, Hw0. apply Qmult_0_l. }
  assert (Hbn : (get b (size b - 1) == 0)%Q).
  { rewrite Hlast, Hwn. apply Qmult_0_l. }
  split; [exact Hb0 |]. split; [exact Hbn |].
  intros eps Heps. rewrite Hb0, Hbn. exact Heps.
Qed.

End Background.

(** ** Regions of no width or height *)

Section FlatRegions.
Import Geometry.
Local Open Scope Z_scope.

Ltac settle_cmp :=
  match goal with
  | |- context [?a <=? ?b] =>
      first [ rewrite (proj2 (Z.leb_le a b)) by nia
            | rewrite (proj2 (Z.leb_gt a b)) by nia ]
  | |- context [?a <? ?b] =>
      first [ rewrite (proj2 (Z.ltb_lt a b)) by nia
            | rewrite (proj2 (Z.ltb_ge a b)) by nia ]
  | |- context [?a =? ?b] =>
      first [ rewrite (proj2 (Z.eqb_eq a b)) by nia
            | rewrite (proj2 (Z.eqb_neq a b)) by nia ]
  end.

(** On a rectangle flattened to a segment or a point the crossing test
    returns [0] on it and [-1] elsewhere. *)
Lemma pointPolygonTest_flat (x y w h px py : Z) :
  0 <= w -> 0 <= h -> w = 0 \/ h = 0 ->
  pointPolygonTest (corners (Rect x y w h)) (px, py) =
    if (x <=? px) && (px <=? x + w) && (y <=? py) && (py <=? y + h)
    then 0 else -1.
Proof.
  intros Hw Hh Hflat.
  unfold pointPolygonTest, corners, polygon_loop, edge_test, last.
  cbn [rx ry rw rh].
  destruct (Z.compare_spec px x), (Z.compare_spec px (x + w)),
    (Z.compare_spec py y), (Z.compare_spec py (y + h)),
    (Z.compare_spec w 0), (Z.compare_spec h 0); try lia;
    repeat (settle_cmp; cbn [andb orb negb Z.even Z.add Pos.add Z.opp]);
    reflexivity.
Qed.

(** X1. [point_inside] also answers for a region of no width or no height,
    such as the (0, 0, 0, 0) of a cancelled selection: it is true exactly on
    the segment or the single point the region is. *)
Theorem point_inside_flat_region (r : rect) (p : point) :
  0 <= rw r -> 0 <= rh r ->
  (fst (point_inside r p) = true <-> in_closed_rect r p).
Proof.
  intros Hw Hh.
  destruct (Z.eq_dec (rw r) 0) as [Hw0 | Hw0];
    [| destruct (Z.eq_dec (rh r) 0) as [Hh0 | Hh0]].
  3: apply point_inside_iff; lia.
  all: destruct r as [x y w h], p as [px py]; cbn [rx ry rw rh] in *;
    unfold point_inside, in_closed_rect; cbn [rx ry rw rh fst snd];
    rewrite pointPolygonTest_flat by lia;
    destruct (Z.leb_spec x px), (Z.leb_spec px (x + w)),
      (Z.leb_spec y py), (Z.leb_spec py (y + h)); cbn;
    split; intros; try discriminate; try reflexivity; lia.
Qed.

End FlatRegions.

(** ** More on the tracking loop *)

Section TrackingRuns.
Import Geometry Tracking.
Local Open Scope Z_scope.

Variable rect : Geometry.rect.

(** X2. The centre computed for a tracked box of non-negative width and
    height lies within the box, on both axes. *)
Theorem centre_in_box (x y w h : Z) :
  0 <= w -> 0 <= h ->
  x <= fst (centre (x, y, w, h)) <= x + w /\
  y <= snd (centre (x, y, w, h)) <= y + h.
Proof.
  intros Hw Hh. unfold centre, int_half_sum. cbn [fst snd].
  assert (Hq : forall a b, 0 <= b -> a <= Z.quot (2 * a + b) 2 <= a + b).
  { intros a b Hb. pose proof (Z.quot_rem' (2 * a + b) 2) as E.
    pose proof (Z.rem_bound_abs (2 * a + b) 2 ltac:(lia)) as Habs.
    destruct (Z.le_gt_cases 0 (2 * a + b)) as [Hs | Hs].
    - pose proof (Z.rem_nonneg (2 * a + b) 2 ltac:(lia) Hs). lia.
    - pose proof (Z.rem_nonpos (2 * a + b) 2 ltac:(lia) ltac:(lia)). lia. }
  split; apply Hq; assumption.
Qed.

Lemma body_ready (f : frame) (rest : list frame) (s : state) (p : bool) :
  ready rect s (f :: rest) p ->
  let cur := if success f then containment rect f else p in
  exists s1,
    body rect f s = inr (s1, key f =? 27) /\
    running s1 cur /\
    fired s1 = fired s ++ [cur && negb p] /\
    csv s1 = csv s ++ (if success f then [record_of rect f] else []) /\
    end_stream s1 = end_stream s || (key f =? 27).
Proof.
  intros Hready cur. unfold body.
  destruct (success f) eqn:Hs.
  - rewrite track_success by exact Hs. unfold rising.
    cbn [in_roi prev_state load csv fired end_stream]. subst cur.
    assert (Hp : containment rect f = true -> prev_state s = Some p).
    { intros Hc. destruct Hready as [[_ Hprev] | (_ & f' & rest' & E & _ & Hout)].
      - exact Hprev.
      - injection E as <- <-. congruence. }
    destruct (containment rect f) eqn:Hc.
    + rewrite (Hp eq_refl). cbn [load].
      destruct p, (key f =? 27); eexists; (split; [reflexivity |]);
        unfold running, record_of; cbn; rewrite ?Hc, ?orb_true_r, ?orb_false_r;
        auto.
    + destruct (key f =? 27); eexists; (split; [reflexivity |]);
        unfold running, record_of; cbn; rewrite ?Hc, ?orb_true_r, ?orb_false_r;
        auto.
  - destruct Hready as [[Hin Hprev] | (_ & f' & rest' & E & Hs' & _)];
      [| injection E as <- <-; congruence].
    unfold track. rewrite Hs. unfold rising. rewrite Hin, Hprev. cbn [load].
    subst cur.
    destruct p, (key f =? 27); eexists; (split; [reflexivity |]);
      unfold running; cbn; rewrite ?app_nil_r, ?orb_true_r, ?orb_false_r;
      rewrite ?Hin; auto.
Qed.

Lemma loop_ready (frames : list frame) : forall (s : state) (p : bool),
  ready rect s frames p ->
  exists s',
    loop rect frames s = Finished s' /\
    fired s' = fired s ++ rising_edges p (held rect p (processed frames)) /\
    csv s' =
      csv s ++ map (record_of rect) (filter success (processed frames)) /\
    end_stream s' = end_stream s || existsb (fun f => key f =? 27) frames.
Proof.
  induction frames as [| f rest IH]; intros s p Hready.
  - exists s. cbn. rewrite !app_nil_r, orb_false_r. auto.
  - destruct (body_ready f rest s p Hready)
      as (s1 & Hbody & Hrun & Hfired & Hcsv & Hend).
    cbn [loop processed existsb]. rewrite Hbody.
    destruct (key f =? 27) eqn:Hk.
    + exists s1. split; [reflexivity |].
      rewrite Hfired, Hcsv, Hend. cbn [held rising_edges filter map].
      destruct (success f); cbn [map]; rewrite ?orb_true_r; auto.
    + destruct (IH s1 _ (or_introl Hrun)) as (s' & Hloop & Hf' & Hc' & He').
      exists s'. split; [exact Hloop |].
      rewrite Hf', Hc', He', Hfired, Hcsv, Hend, <- !app_assoc.
      cbn [held rising_edges filter map app].
      rewrite orb_false_r.
      destruct (success f); cbn [map app]; auto.
Qed.


(** X3. The loop entered with unassigned names runs to its end exactly when
    there is no frame at all or the first frame is tracked outside the
    region; any other first frame raises. *)
Theorem loop_finishes_iff_first_frame_outside (frames : list frame) :
  (exists s', loop rect frames initial = Finished s') <->
  frames = [] \/
  exists f rest,
    frames = f :: rest /\ success f = true /\ containment rect f = false.
Proof.
  split.
  - intros [s' Hloop]. destruct frames as [| f rest]; [left; reflexivity |].
    right. exists f, rest. split; [reflexivity |].
    cbn [loop] in Hloop. unfold body in Hloop.
    destruct (success f) eqn:Hs.
    + split; [reflexivity |].
      rewrite track_success in Hloop by exact Hs.
      unfold rising in Hloop. cbn [in_roi prev_state load initial] in Hloop.
      destruct (containment rect f); [discriminate Hloop | reflexivity].
    + unfold track in Hloop. rewrite Hs in Hloop. discriminate Hloop.
  - intros [-> | (f & rest & -> & Hs & Hc)].
    + exists initial. reflexivity.
    + destruct (loop_ready (f :: rest) initial false) as (s' & Hloop & _).
      { right. split; [reflexivity |]. exists f, rest. auto. }
      exists s'. exact Hloop.
Qed.









Lemma body_bounds (f : frame) (s : state) :
  match body rect f s with
  | inl (_, s') | inr (s', _) =>
      (List.length (csv s') <= S (List.length (csv s)))%nat /\
      (List.length (fired s') <= S (List.length (fired s)))%nat
  end.
Proof.
  unfold body, track.
  destruct (success f).
  - destruct (point_inside rect (centre (roi f))) as [inside c].
    unfold rising. cbn [in_roi prev_state csv fired load].
    destruct inside; [destruct (prev_state s) |]; cbn [load];
      try destruct (key f =? 27); cbn [csv fired];
      rewrite ?length_app; cbn [List.length]; lia.
  - unfold rising.
    destruct (in_roi s) as [[|] |]; cbn [load];
      [destruct (prev_state s) | |]; cbn [load];
      try destruct (key f =? 27); cbn [csv fired];
      rewrite ?length_app; cbn [List.length]; lia.
Qed.

Lemma loop_bounds (frames : list frame) : forall s : state,
  (List.length (csv (state_of (loop rect frames s))) <=
   List.length (csv s) + List.length frames)%nat /\
  (List.length (fired (state_of (loop rect frames s))) <=
   List.length (fired s) + List.length frames)%nat.
Proof.
  induction frames as [| f frames IH]; intros s; [cbn; lia |].
  cbn [loop List.length]. pose proof (body_bounds f s) as Hb.
  destruct (body rect f s) as [[e s'] | [s' [|]]]; cbn [state_of].
  - lia.
  - lia.
  - specialize (IH s'). lia.
Qed.

End TrackingRuns.

Section Sessions.
Import Geometry Tracking.

(** X8. The two selections take the first two frames of the source: the
    tracking loop runs on the frames after them with the region the
    operator drew, [rect] is never read while it is [None], and at most
    [len(frames) - 2] records are written and frames examined for a
    trigger. *)
Theorem session_tracks_from_third_frame
    (frames : list frame) (tracker_box : Z * Z * Z * Z)
    (trigger_box : Geometry.rect) :
  session frames tracker_box trigger_box =
    Ran (loop trigger_box (skipn 2 frames) initial) /\
  (List.length (csv (state_of
     (loop trigger_box (skipn 2 frames) initial))) <=
   List.length frames - 2)%nat /\
  (List.length (fired (state_of
     (loop trigger_box (skipn 2 frames) initial))) <=
   List.length frames - 2)%nat.
Proof.
  split.
  - destruct frames as [| f1 [| f2 [| f3 rest]]]; reflexivity.
  - pose proof (loop_bounds trigger_box (skipn 2 frames) initial) as [H1 H2].
    rewrite length_skipn in H1, H2. cbn [initial csv fired List.length] in *.
    lia.
Qed.

End Sessions.

(** ** More on the audio processes *)

Section Playbacks.
Import Workers.

Lemma interleave_app (a1 a2 : list action) (c : events * stim) :
  interleave (a1 ++ a2) c = interleave a2 (interleave a1 c).
Proof. unfold interleave. apply fold_left_app. Qed.

Lemma act_owed (a : action) (c : events * stim) :
  (st_written (snd (act a c)) + owed (act a c) <=
   st_written (snd c) + owed c + set_calls [a])%nat.
Proof.
  destruct c as [[play stop] [pc open audio written]].
  destruct a; cbn [act set_calls].
  - destruct pc, play; cbn; lia.
  - destruct pc, play; cbn; lia.
  - unfold trigger_stim_step, stim_goto, owed.
    destruct pc, play, stop; cbn; lia.
Qed.

Lemma set_calls_cons (a : action) (acts : list action) :
  set_calls (a :: acts) = (set_calls [a] + set_calls acts)%nat.
Proof. destruct a; reflexivity. Qed.

Lemma interleave_owed (acts : list action) : forall c : events * stim,
  (st_written (snd (interleave acts c)) + owed (interleave acts c) <=
   st_written (snd c) + owed c + set_calls acts)%nat.
Proof.
  induction acts as [| a acts IH]; intros c; [cbn; lia |].
  change (interleave (a :: acts) c) with (interleave acts (act a c)).
  rewrite set_calls_cons.
  pose proof (IH (act a c)). pose proof (act_owed a c). lia.
Qed.

(** X9. However the calls of [play_stim.set()] by the main process and the
    statements of [trigger_stim] interleave, the stimulus is written at
    most once per call: a call made while the trigger is already raised, or
    between a write and the clearing of the trigger, starts no playback. *)
Theorem playbacks_at_most_set_calls (acts : list action) :
  (st_written (snd (interleave acts (Events false false, stim_initial)))
   <= set_calls acts)%nat.
Proof.
  pose proof (interleave_owed acts (Events false false, stim_initial)) as H.
  cbn in H. lia.
Qed.

Lemma act_handles (a : action) (c : events * stim) :
  handles_in_order (snd c) = true -> handles_in_order (snd (act a c)) = true.
Proof.
  destruct c as [[play stop] [pc open audio written]].
  destruct a; cbn [act snd]; auto.
  unfold trigger_stim_step, stim_goto, handles_in_order.
  destruct pc, play, stop, open, audio; cbn; auto.
Qed.

(** X10. Under every interleaving, the stimulus process holds an open stream
    exactly while it is in the write or about to close it, and its PyAudio
    instance from its creation until it returns: while it waits for a
    trigger no stream is open. *)
Theorem stimulus_handles_in_order (acts : list action) (ev : events) :
  handles_in_order (snd (interleave acts (ev, stim_initial))) = true.
Proof.
  assert (H : forall c, handles_in_order (snd c) = true ->
                        handles_in_order (snd (interleave acts c)) = true).
  { induction acts as [| a acts IH]; intros c Hc; [exact Hc |].
    change (interleave (a :: acts) c) with (interleave acts (act a c)).
    apply IH, act_handles, Hc. }
  apply H. reflexivity.
Qed.

(** X11. One trigger, one playback: from its wait with the trigger raised and
    [end_stream] not set, [trigger_stim] writes the stimulus once, closes
    the stream, clears the trigger and is back in its wait after six
    statements, where it stays. *)
Theorem one_trigger_one_playback (s : stim) (n : nat) :
  st_at s = StWait ->
  (6 <= n)%nat ->
  trigger_stim n (Events true false) s =
    (Events false false,
     {| st_at := StWait; st_stream := false; st_audio := st_audio s;
        st_written := S (st_written s) |}).
Proof.
  intros Hat Hn. destruct s as [pc open audio written]. cbn in Hat. subst pc.
  replace n with (6 + (n - 6))%nat by lia.
  rewrite trigger_stim_add. cbn [trigger_stim]. unfold trigger_stim_step.
  cbn. apply trigger_stim_stuck. reflexivity.
Qed.

(** X12. While [end_stream] is not set, [play_sound] keeps writing the
    background buffer: after its first statement every two statements
    complete one more write, whatever the trigger. *)
Theorem background_keeps_playing (n : nat) (ev : events) :
  end_stream ev = false ->
  play_sound (1 + 2 * n) ev bg_initial =
    {| bg_at := BgTest; bg_stream := true; bg_audio := true;
       bg_written := n |}.
Proof.
  intros Hend. induction n as [| n IH]; [reflexivity |].
  replace (1 + 2 * S n)%nat with ((1 + 2 * n) + 2)%nat by lia.
  rewrite play_sound_add, IH. cbn [play_sound]. unfold play_sound_step. cbn.
  rewrite Hend. reflexivity.
Qed.

End Playbacks.

(** ** More on the calibration loop *)

Section CalibrationTraces.
Import PyFloat Calibration.







End CalibrationTraces.

(** ** More on the synthesis *)

Section Generators.
Import Synthesis.
Local Open Scope Z_scope.

Lemma lin_value_zero (amplitude : Q) (num k : Z) :
  (amplitude == 0)%Q -> 0 <= k < num ->
  (lin_value 0 amplitude num k == 0)%Q.
Proof.
  intros Ha Hk.
  destruct (lin_value_bounds 0 0 0 amplitude num k) as [H1 H2];
    try lra; lia.
Qed.


Lemma lin_value_anti (start stop : Q) (num i j : Z) :
  (stop <= start)%Q ->
  0 <= i <= j -> j < num ->
  (lin_value start stop num j <= lin_value start stop num i)%Q.
Proof.
  intros Hle Hij Hj.
  destruct (Z.eq_dec num 1) as [-> | Hn1].
  { unfold lin_value. cbn. apply Qle_refl. }
  destruct (Z.eq_dec j (num - 1)) as [-> | Hlast].
  { rewrite lin_value_last by lia.
    apply (lin_value_bounds stop start start stop); try assumption;
      try apply Qle_refl; lia. }
  destruct (lin_value_convex start stop num i ltac:(lia))
    as (t & [Ht0 Ht1] & Hval & Hlater).
  destruct (Hlater j ltac:(lia)) as (t' & [Htt' Ht1'] & Hval').
  rewrite Hval, Hval'. nra.
Qed.

(** X15. Between the two ramps [noise_generator] applies the noise twice: a
    sample there is amplitude * noise * noise, hence never negative for a
    non-negative amplitude, whatever the sign of the noise. *)
Theorem noise_generator_body_squares_noise
    (amplitude : Q) (duration fs : Z) (rng : nat -> Q) :
  0 <= fs -> 1 <= duration ->
  exists w,
    noise_generator amplitude duration fs rng = Some w /\
    size w = fs * duration /\
    forall k, Z.quot fs 4 <= k < fs * duration - Z.quot fs 4 ->
      get w k = (amplitude * rng (Z.to_nat k) * rng (Z.to_nat k))%Q /\
      ((0 <= amplitude)%Q -> (0 <= get w k)%Q).
Proof.
  intros Hfs Hdur.
  destruct (noise_generator_spec amplitude duration fs rng Hfs Hdur)
    as (w & Hw & Hsize & Hget).
  destruct (window_bounds duration fs Hfs Hdur) as [HW0 HW].
  exists w. split; [exact Hw |]. split; [exact Hsize |].
  intros k Hk.
  assert (E : get w k = (amplitude * rng (Z.to_nat k) * rng (Z.to_nat k))%Q).
  { rewrite Hget by lia. unfold ramped.
    rewrite (proj2 (Z.ltb_ge k (Z.quot fs 4))) by lia.
    rewrite (proj2 (Z.leb_gt (fs * duration - Z.quot fs 4) k)) by lia.
    reflexivity. }
  split; [exact E |]. intros Ha. rewrite E.
  rewrite <- Qmult_assoc. apply Qmult_le_0_compat; [exact Ha |].
  nra.
Qed.

(** X16. With at least four samples per second and a duration of at least a
    second, the buffer of [noise_generator] starts and ends with a zero
    sample, and its ramps mirror each other: sample [k] of the fade-in and
    sample [k] from the end of the fade-out are the same ramp value, each
    times its own noise value. *)
Theorem noise_generator_fades
    (amplitude : Q) (duration fs : Z) (rng : nat -> Q) :
  4 <= fs -> 1 <= duration ->
  exists w,
    noise_generator amplitude duration fs rng = Some w /\
    (get w 0 == 0)%Q /\
    (get w (size w - 1) == 0)%Q /\
    forall k, 0 <= k < Z.quot fs 4 ->
      get w k =
        (lin_value 0 amplitude (Z.quot fs 4) k * rng (Z.to_nat k))%Q /\
      get w (size w - 1 - k) =
        (lin_value 0 amplitude (Z.quot fs 4) k *
         rng (Z.to_nat (size w - 1 - k)))%Q.
Proof.
  intros Hfs Hdur.
  destruct (noise_generator_spec amplitude duration fs rng ltac:(lia) Hdur)
    as (w & Hw & Hsize & Hget).
  destruct (window_bounds duration fs ltac:(lia) Hdur) as [HW0 HW].
  assert (HW1 : 1 <= Z.quot fs 4).
  { rewrite Z.quot_div_nonneg by lia.
    pose proof (Z.div_le_mono 4 fs 4 ltac:(lia) Hfs) as H.
    change (4 / 4) with 1 in H. exact H. }
  assert (Hramps : forall k, 0 <= k < Z.quot fs 4 ->
            get w k =
              (lin_value 0 amplitude (Z.quot fs 4) k * rng (Z.to_nat k))%Q /\
            get w (size w - 1 - k) =
              (lin_value 0 amplitude (Z.quot fs 4) k *
               rng (Z.to_nat (size w - 1 - k)))%Q).
  { intros k Hk. rewrite Hsize. rewrite !Hget by lia. unfold ramped. split.
    - rewrite (proj2 (Z.ltb_lt k (Z.quot fs 4))) by lia. reflexivity.
    - rewrite (proj2 (Z.ltb_ge (fs * duration - 1 - k) (Z.quot fs 4))) by lia.
      rewrite (proj2 (Z.leb_le (fs * duration - Z.quot fs 4)
                               (fs * duration - 1 - k))) by lia.
      replace (fs * duration - 1 - (fs * duration - 1 - k)) with k by lia.
      reflexivity. }
  exists w. split; [exact Hw |].
  destruct (Hramps 0 ltac:(lia)) as [H0 Hn]. rewrite Z.sub_0_r in Hn.
  split; [| split; [| exact Hramps]].
  - rewrite H0, lin_value_first by lia. apply Qmult_0_l.
  - rewrite Hn, lin_value_first by lia. apply Qmult_0_l.
Qed.

(** X17. [noise_generator] raises for a duration that is not positive (at
    eight samples per second or more): numpy refuses the negative size, or
    the ramp does not fit the empty array. *)
Theorem noise_generator_rejects_nonpositive_duration
    (amplitude : Q) (duration fs : Z) (rng : nat -> Q) :
  8 <= fs -> duration <= 0 ->
  noise_generator amplitude duration fs rng = None.
Proof.
  intros Hfs Hdur. unfold noise_generator, normal.
  destruct (Z.ltb_spec (fs * duration) 0) as [Hneg | Hnn]; [reflexivity |].
  assert (duration = 0) by nia. subst duration.
  rewrite Z.mul_0_r. cbn [Z.to_nat seq map bind].
  assert (HW : 2 <= Z.quot fs 4).
  { rewrite Z.quot_div_nonneg by lia.
    pose proof (Z.div_le_mono 8 fs 4 ltac:(lia) Hfs) as H.
    change (8 / 4) with 2 in H. exact H. }
  destruct (linspace_spec 0 amplitude (Z.quot fs 4) ltac:(lia))
    as (ramp & -> & Hsize & _).
  cbn [bind]. unfold set_slice, bound, size. cbn [List.length Z.of_nat].
  change (0 <? 0) with false. cbv iota.
  rewrite (proj2 (Z.ltb_ge (Z.quot fs 4) 0)) by lia.
  rewrite Z.min_r by lia. cbn [Z.sub Z.to_nat].
  unfold broadcast. unfold size in Hsize.
  destruct ramp as [| x [| y ramp]]; cbn [List.length] in Hsize; try lia.
  reflexivity.
Qed.

(** X18. Amplitude zero is silence: every sample of [noise_generator] is
    zero, whatever the noise. *)
Theorem noise_generator_zero_amplitude
    (amplitude : Q) (duration fs : Z) (rng : nat -> Q) :
  0 <= fs -> 1 <= duration -> (amplitude == 0)%Q ->
  exists w,
    noise_generator amplitude duration fs rng = Some w /\
    forall k, 0 <= k < size w -> (get w k == 0)%Q.
Proof.
  intros Hfs Hdur Ha.
  destruct (noise_generator_spec amplitude duration fs rng Hfs Hdur)
    as (w & Hw & Hsize & Hget).
  destruct (window_bounds duration fs Hfs Hdur) as [HW0 HW].
  exists w. split; [exact Hw |]. intros k Hk. rewrite Hsize in Hk.
  rewrite Hget by lia. unfold ramped.
  destruct (Z.ltb_spec k (Z.quot fs 4)).
  - rewrite lin_value_zero by (assumption || lia). apply Qmult_0_l.
  - destruct (Z.leb_spec (fs * duration - Z.quot fs 4) k).
    + rewrite lin_value_zero by (assumption || lia). apply Qmult_0_l.
    + rewrite Ha. rewrite !Qmult_0_l. reflexivity.
Qed.


(** X20. The envelope of the stimulus never leaves the interval spanned by
    the two amplitudes, in whichever order they are. *)
Theorem envelope_between_amplitudes (base peak lo hi : Q) :
  (lo <= base)%Q -> (base <= hi)%Q -> (lo <= peak)%Q -> (peak <= hi)%Q ->
  exists env,
    envelope base peak = Some env /\
    forall k, 0 <= k < size env -> (lo <= get env k /\ get env k <= hi)%Q.
Proof.
  intros H1 H2 H3 H4.
  destruct (envelope_spec base peak) as (env & Henv & Hsize & Hval).
  exists env. split; [exact Henv |]. intros k Hk. rewrite Hsize in Hk.
  rewrite Hval by lia.
  pose proof (Z.mod_pos_bound k 44100 ltac:(lia)).
  destruct (Z.ltb_spec (k mod 44100) 17640).
  - apply lin_value_bounds; try assumption; lia.
  - split; assumption.
Qed.

(** X21. [wave_generator] does not order its arguments: when the peak is
    below the base, each segment of the envelope falls monotonically from
    [base] to [peak] over its first 17640 samples and jumps back to [base]
    for the rest. *)
Theorem envelope_falls_when_peak_below_base (base peak : Q) :
  (peak <= base)%Q ->
  exists env,
    envelope base peak = Some env /\
    (get env 0 == base)%Q /\
    get env 17639 = peak /\
    get env 17640 = base /\
    forall i i', 0 <= i <= i' -> i' < 17640 ->
      (get env i' <= get env i)%Q.
Proof.
  intros Hle.
  destruct (envelope_spec base peak) as (env & Henv & Hsize & Hval).
  assert (Hseg : forall i, 0 <= i < 44100 ->
            get env i =
              if i <? 17640 then lin_value base peak 17640 i else base).
  { intros i Hi. rewrite Hval by lia. rewrite Z.mod_small by lia.
    reflexivity. }
  exists env. split; [exact Henv |].
  split; [| split; [| split]].
  - rewrite Hseg by lia. change (0 <? 17640) with true. cbv iota.
    apply lin_value_first. lia.
  - rewrite Hseg by lia. change (17639 <? 17640) with true. cbv iota.
    apply (lin_value_last base peak 17640). lia.
  - rewrite Hseg by lia. reflexivity.
  - intros i i' Hi Hi'. rewrite !Hseg by lia.
    rewrite !(proj2 (Z.ltb_lt _ 17640)) by lia.
    apply lin_value_anti; [exact Hle | lia | lia].
Qed.

End Generators.

(** ** The window on the background buffer *)

Section Windowing.
Import Synthesis.
Local Open Scope Z_scope.

Variables (rng coef : nat -> Q) (min_amp : Q).

(** X22. The windowing of the background buffer leaves its size and its
    middle as [noise_generator] made them, multiplies sample [k] of the
    first 11025 by window coefficient [k], and sample [j] of the last 11025
    by window coefficient [22049 - j]: the reversed window is applied from
    its own start, so for a symmetric window the tail is scaled by the same
    rising half as the head. *)
Theorem background_window_applied :
  exists b w,
    noise_generator min_amp 50 44100 rng = Some w /\
    background min_amp rng coef = Some b /\
    size b = size w /\
    (forall k, 0 <= k < 11025 ->
       get b k = (get w k * coef (Z.to_nat k))%Q) /\
    (forall k, 11025 <= k < size w - 11025 -> get b k = get w k) /\
    (forall j, 0 <= j < 11025 ->
       get b (size w - 11025 + j) =
         (get w (size w - 11025 + j) * coef (Z.to_nat (22049 - j)))%Q).
Proof.
  destruct (noise_generator_spec min_amp 50 44100 rng ltac:(lia) ltac:(lia))
    as (w & Hw & Hsize & _).
  change (44100 * 50) with 2205000 in Hsize.
  unfold background. rewrite Hw. cbn [bind].
  rewrite py_int_window. cbn [bind]. change (22050 / 2) with 11025.
  change (Z.opp 11025) with (-11025).
  set (hann := hanning coef 22050).
  assert (Hhann : size hann = 22050) by (apply size_map_seq; lia).
  set (head := zip_mul (slice w 0 11025) (slice hann 0 11025)).
  rewrite (mul_eq (slice w 0 11025) (slice hann 0 11025))
    by (rewrite !size_slice; lia).
  cbn [bind]. fold head.
  assert (Hhead : size head = 11025).
  { unfold head. rewrite size_zip_mul; rewrite !size_slice; lia. }
  rewrite (set_slice_eq w 0 11025 head) by lia. cbn [bind].
  set (b1 := firstn (Z.to_nat 0) w ++ head ++ skipn (Z.to_nat 11025) w).
  assert (Hb1 : size b1 = 2205000).
  { unfold b1. rewrite !size_app, size_firstn, size_skipn by lia. lia. }
  assert (Hrev : size (rev hann) = 22050) by (rewrite size_rev; exact Hhann).
  assert (Htailsize : size (slice b1 (-11025) (size b1)) = 11025).
  { rewrite slice_from_end by lia. rewrite size_firstn; [reflexivity |].
    rewrite size_skipn; lia. }
  set (tail := zip_mul (slice b1 (-11025) (size b1))
                       (slice (rev hann) 0 11025)).
  rewrite (mul_eq (slice b1 (-11025) (size b1)) (slice (rev hann) 0 11025))
    by (rewrite Htailsize, size_slice; lia).
  cbn [bind]. fold tail.
  assert (Htail : size tail = 11025).
  { unfold tail. rewrite size_zip_mul; rewrite Htailsize; [reflexivity |].
    rewrite size_slice; lia. }
  rewrite (set_slice_from_end b1 (-11025) tail) by lia.
  set (b := firstn (Z.to_nat (size b1 + -11025)) b1 ++ tail
            ++ skipn (Z.to_nat (size b1)) b1).
  assert (Hb : size b = 2205000).
  { unfold b. rewrite !size_app, size_firstn, size_skipn by lia. lia. }
  assert (Hb1get : forall k, 11025 <= k < 2205000 -> get b1 k = get w k).
  { intros k Hk. unfold b1.
    rewrite get_app_r by (rewrite size_firstn; lia).
    rewrite size_firstn by lia. rewrite Z.sub_0_r.
    rewrite get_app_r by lia. rewrite Hhead.
    rewrite get_skipn by lia. f_equal. lia. }
  exists b, w. split; [reflexivity |]. split; [reflexivity |].
  split; [congruence |]. rewrite Hsize. split; [| split].
  - intros k Hk. unfold b.
    rewrite get_app_l by (rewrite size_firstn; lia).
    rewrite get_firstn by lia. unfold b1.
    rewrite get_app_r by (rewrite size_firstn; lia).
    rewrite size_firstn by lia. rewrite Z.sub_0_r.
    rewrite get_app_l by lia. unfold head.
    rewrite get_zip_mul by (rewrite !size_slice; lia).
    rewrite !get_slice by lia. rewrite Z.add_0_r.
    unfold hann, hanning. rewrite get_map_seq by lia. reflexivity.
  - intros k Hk. unfold b.
    rewrite get_app_l by (rewrite size_firstn; lia).
    rewrite get_firstn by lia. apply Hb1get. lia.
  - intros j Hj. unfold b. rewrite Hb1.
    rewrite get_app_r by (rewrite size_firstn; lia).
    rewrite size_firstn by lia.
    rewrite get_app_l by lia. unfold tail.
    rewrite get_zip_mul by (rewrite ?Htailsize, ?size_slice by lia; lia).
    rewrite (get_slice (rev hann)) by lia.
    rewrite slice_from_end by lia. rewrite Hb1.
    rewrite get_firstn by lia. rewrite get_skipn by lia.
    rewrite get_rev by lia. rewrite Hhann.
    rewrite Hb1get by lia.
    unfold hann, hanning. rewrite get_map_seq by lia.
    f_equal; [f_equal; lia | do 2 f_equal; lia].
Qed.

End Windowing.

(** ** The command line and the csv lines *)

Section Numerals.
Import PyFloat CommandLine.
Local Open Scope Z_scope.

Lemma chars_digits (d : Decimal.uint) :
  Forall (fun c => is_digit c = true) (chars d).
Proof.
  unfold chars. induction d; cbn; constructor; auto.
Qed.

Lemma digits_more_chars (d : Decimal.uint) : forall acc len,
  exists len',
    digits_more acc len (chars d) = (uint_value d acc, len', []).
Proof.
  unfold chars.
  induction d; intros acc len;
    [exists len; reflexivity | ..];
    cbn [DecimalString.NilEmpty.string_of_uint list_ascii_of_string
         digits_more uint_value];
    match goal with
    | |- context [digit_of ?c] =>
        change (digit_of c) with (Some (code c - 48)); cbv iota
    end; apply IHd.
Qed.

Lemma pos_of_uint_acc (d : Decimal.uint) : forall acc : positive,
  Z.pos (Pos.of_uint_acc d acc) = uint_value d (Z.pos acc).
Proof.
  induction d; intros acc; cbn [Pos.of_uint_acc uint_value];
    [reflexivity | ..]; rewrite IHd; f_equal; lia.
Qed.

Lemma uint_value_of_uint (d : Decimal.uint) :
  uint_value d 0 = Z.of_uint d.
Proof.
  unfold Z.of_uint.
  induction d; cbn [uint_value Pos.of_uint]; [reflexivity | exact IHd | ..];
    cbn [Z.mul Z.add Z.of_N]; rewrite pos_of_uint_acc; reflexivity.
Qed.

Lemma lstrip_id (s : list ascii) :
  Forall (fun c => is_space c = false) s -> lstrip s = s.
Proof.
  intros H. destruct H as [| c s Hc _]; [reflexivity |].
  cbn [lstrip]. rewrite Hc. reflexivity.
Qed.

Lemma strip_id (s : list ascii) :
  Forall (fun c => is_space c = false) s -> strip s = s.
Proof.
  intros H. unfold strip. rewrite (lstrip_id s H).
  rewrite lstrip_id by (apply Forall_rev, H). apply rev_involutive.
Qed.

Lemma digit_not_space (c : ascii) : is_digit c = true -> is_space c = false.
Proof.
  unfold is_digit, digit_of, is_space.
  destruct (Z.leb_spec 48 (code c)), (Z.leb_spec (code c) 57); cbn;
    try discriminate.
  intros _.
  rewrite (proj2 (Z.leb_gt (code c) 13)) by lia.
  rewrite (proj2 (Z.leb_gt (code c) 32)) by lia.
  rewrite !andb_false_r. reflexivity.
Qed.

Lemma chars_no_space (d : Decimal.uint) :
  Forall (fun c => is_space c = false) (chars d).
Proof.
  eapply Forall_impl; [| apply chars_digits]. apply digit_not_space.
Qed.

Lemma chars_nonnil (d : Decimal.uint) :
  d <> Decimal.Nil -> exists c rest, chars d = c :: rest /\ is_digit c = true.
Proof.
  intros Hd. pose proof (chars_digits d) as H.
  destruct d; [congruence | ..]; unfold chars in *; cbn in *;
    inversion H; subst; eauto.
Qed.

Lemma int_of_chars (d : Decimal.uint) (neg : bool) :
  d <> Decimal.Nil ->
  int (string_of_list_ascii ((sign_chars neg) ++ chars d)) =
    inr (if neg then - Z.of_uint d else Z.of_uint d).
Proof.
  intros Hd. unfold int. rewrite list_ascii_of_string_of_list_ascii.
  destruct (chars_nonnil d Hd) as (c & rest & Hc & Hdig).
  assert (Hsp : Forall (fun c => is_space c = false)
                  ((sign_chars neg) ++ chars d)).
  { apply Forall_app. split; [| apply chars_no_space].
    destruct neg; repeat constructor. }
  rewrite (strip_id _ Hsp).
  assert (Hsign : sign ((sign_chars neg) ++ chars d) =
                  (neg, chars d)).
  { destruct neg; [reflexivity |]. cbn [app sign_chars]. rewrite Hc.
    unfold sign.
    unfold is_digit, digit_of in Hdig.
    destruct (Ascii.eqb_spec c "-") as [-> | _]; [discriminate Hdig |].
    destruct (Ascii.eqb_spec c "+") as [-> | _]; [discriminate Hdig |].
    reflexivity. }
  rewrite Hsign. unfold digitpart. rewrite Hc.
  unfold is_digit in Hdig. destruct (digit_of c) as [v |] eqn:Hv;
    [| discriminate Hdig].
  assert (E : exists len', digits_more (10 * 0 + v) (0 + 1) rest =
                           (uint_value d 0, len', [])).
  { destruct (digits_more_chars d 0 0) as (len' & Hall).
    rewrite Hc in Hall. cbn [digits_more] in Hall. rewrite Hv in Hall.
    exists len'. exact Hall. }
  destruct E as (len' & ->). rewrite uint_value_of_uint. reflexivity.
Qed.

Lemma str_int_chars (n : Z) :
  exists d neg,
    d <> Decimal.Nil /\
    str_int n =
      string_of_list_ascii ((sign_chars neg) ++ chars d) /\
    (if neg then - Z.of_uint d else Z.of_uint d) = n.
Proof.
  pose proof (DecimalZ.of_to n) as Hn.
  unfold str_int. unfold Z.of_int in Hn.
  destruct (Z.to_int n) as [d | d] eqn:E.
  - destruct n as [| p | p]; cbn in E; try discriminate.
    + injection E as <-. exists (Decimal.D0 Decimal.Nil), false.
      split; [discriminate |]. split; reflexivity.
    + injection E as <-. exists (Pos.to_uint p), false.
      pose proof (DecimalPos.Unsigned.to_uint_nonnil p) as Hnn.
      split; [exact Hnn |]. split; [| exact Hn].
      cbn [app sign_chars DecimalString.NilZero.string_of_int
           DecimalString.NilZero.string_of_uint].
      unfold chars. rewrite string_of_list_ascii_of_string.
      destruct (Pos.to_uint p); [congruence | reflexivity ..].
  - destruct n as [| p | p]; cbn in E; try discriminate.
    injection E as <-. exists (Pos.to_uint p), true.
    pose proof (DecimalPos.Unsigned.to_uint_nonnil p) as Hnn.
    split; [exact Hnn |]. split; [| exact Hn].
    cbn [app sign_chars DecimalString.NilZero.string_of_int
         DecimalString.NilZero.string_of_uint string_of_list_ascii].
    unfold chars. rewrite string_of_list_ascii_of_string.
    destruct (Pos.to_uint p); [congruence | reflexivity ..].
Qed.

Lemma if_int_str_int (n : Z) : if_int (str_int n) = Some n.
Proof.
  destruct (str_int_chars n) as (d & neg & Hd & -> & Hn).
  unfold if_int. rewrite int_of_chars by exact Hd. rewrite Hn.
  reflexivity.
Qed.


Lemma digits_more_all (n : nat) : forall s acc len m l,
  (List.length s <= n)%nat ->
  digits_more acc len s = (m, l, []) ->
  Forall (fun c => numeral_char c = true) s.
Proof.
  induction n as [| n IH]; intros s acc len m l Hn H.
  - destruct s; [constructor | cbn in Hn; lia].
  - destruct s as [| c rest]; [constructor |].
    cbn [List.length] in Hn. cbn [digits_more] in H.
    destruct (digit_of c) as [v |] eqn:Hv.
    + constructor.
      * unfold numeral_char. rewrite Hv. rewrite orb_true_r. reflexivity.
      * eapply IH; [| exact H]. lia.
    + destruct (Ascii.eqb c "_") eqn:Hus; [| discriminate H].
      destruct rest as [| c' rest']; [discriminate H |].
      destruct (digit_of c') as [v' |] eqn:Hv'; [| discriminate H].
      constructor; [unfold numeral_char; rewrite Hus, !orb_true_r; reflexivity |].
      constructor.
      * unfold numeral_char. rewrite Hv'. rewrite orb_true_r. reflexivity.
      * cbn [List.length] in Hn. eapply IH; [| exact H]. lia.
Qed.

Lemma lstrip_all (P : ascii -> Prop) (s : list ascii) :
  (forall c, is_space c = true -> P c) ->
  Forall P (lstrip s) -> Forall P s.
Proof.
  intros Hsp. induction s as [| c s IH]; intros H; [constructor |].
  cbn [lstrip] in H. destruct (is_space c) eqn:Hc; [| exact H].
  constructor; [apply Hsp, Hc | apply IH, H].
Qed.

Lemma strip_all (P : ascii -> Prop) (s : list ascii) :
  (forall c, is_space c = true -> P c) ->
  Forall P (strip s) -> Forall P s.
Proof.
  intros Hsp H. unfold strip in H. apply Forall_rev in H.
  rewrite rev_involutive in H. apply (lstrip_all P _ Hsp) in H.
  apply Forall_rev in H. rewrite rev_involutive in H.
  apply (lstrip_all P _ Hsp), H.
Qed.

Lemma int_all_numeral (value : string) (n : Z) :
  int value = inr n ->
  Forall (fun c => numeral_char c = true) (list_ascii_of_string value).
Proof.
  unfold int. intros H.
  apply strip_all.
  { intros c Hc. unfold numeral_char. rewrite Hc. reflexivity. }
  destruct (sign (strip (list_ascii_of_string value))) as [neg body] eqn:Hsign.
  assert (Hbody : Forall (fun c => numeral_char c = true) body).
  { unfold digitpart in H. destruct body as [| c rest]; [discriminate H |].
    destruct (digit_of c) as [v |] eqn:Hv; [| discriminate H].
    destruct (digits_more (10 * 0 + v) (0 + 1) rest) as [[m l] tl] eqn:Hd.
    destruct tl; [| discriminate H].
    constructor.
    - unfold numeral_char. rewrite Hv, orb_true_r. reflexivity.
    - eapply digits_more_all; [apply le_n | exact Hd]. }
  unfold sign in Hsign.
  destruct (strip (list_ascii_of_string value)) as [| c rest];
    [constructor |].
  destruct (Ascii.eqb c "-") eqn:Hm.
  { injection Hsign as _ <-. constructor; [| exact Hbody].
    unfold numeral_char. rewrite Hm, !orb_true_r. reflexivity. }
  destruct (Ascii.eqb c "+") eqn:Hp.
  { injection Hsign as _ <-. constructor; [| exact Hbody].
    unfold numeral_char. rewrite Hp, !orb_true_r. reflexivity. }
  injection Hsign as _ <-. exact Hbody.
Qed.

(** X24. An argument holding any ASCII character other than a digit, a
    sign, an underscore or whitespace (a letter, a dot, a slash) is never
    taken for a device index: [video] is the argument itself, as a file
    name. *)
Theorem video_is_path_unless_numeral
    (prog arg : string) (rest : list string) (c : ascii) :
  In c (list_ascii_of_string arg) ->
  code c < 128 ->
  numeral_char c = false ->
  if_int arg = None /\ video (prog :: arg :: rest) = Some (Path arg).
Proof.
  intros Hin _ Hc.
  assert (H : if_int arg = None).
  { unfold if_int. destruct (int arg) as [e | n] eqn:E; [reflexivity |].
    pose proof (int_all_numeral arg n E) as Hall.
    rewrite Forall_forall in Hall. rewrite (Hall c Hin) in Hc.
    discriminate Hc. }
  split; [exact H |]. unfold video. rewrite H. reflexivity.
Qed.



Lemma chars_of_append (s1 s2 : string) :
  list_ascii_of_string (s1 ++ s2) =
    list_ascii_of_string s1 ++ list_ascii_of_string s2.
Proof.
  induction s1 as [| c s1 IH]; [reflexivity |].
  cbn [String.append list_ascii_of_string app]. rewrite IH. reflexivity.
Qed.

Lemma split_at_char (c : ascii) (a : list ascii) : forall a' r r',
  ~ In c a -> ~ In c a' ->
  a ++ c :: r = a' ++ c :: r' -> a = a' /\ r = r'.
Proof.
  induction a as [| x a IH]; intros [| x' a'] r r' Ha Ha' E; cbn in *.
  - injection E as <-. auto.
  - injection E as ->. tauto.
  - injection E as ->. tauto.
  - injection E as -> E. destruct (IH a' r r') as [-> ->]; tauto.
Qed.

(** The characters of [str(n)]: digits after a possible minus sign. *)
Lemma str_int_plain (n : Z) (c : ascii) :
  In c (list_ascii_of_string (str_int n)) ->
  is_digit c = true \/ c = "-"%char.
Proof.
  destruct (str_int_chars n) as (d & neg & _ & -> & _).
  rewrite list_ascii_of_string_of_list_ascii. intros Hin.
  apply in_app_or in Hin as [Hin | Hin].
  - destruct neg; cbn in Hin; [destruct Hin as [<- | []]; auto | contradiction].
  - left. pose proof (chars_digits d) as H. rewrite Forall_forall in H.
    apply H, Hin.
Qed.

Lemma str_int_inj (n n' : Z) : str_int n = str_int n' -> n = n'.
Proof.
  intros E. pose proof (if_int_str_int n) as H. rewrite E in H.
  rewrite if_int_str_int in H. congruence.
Qed.

Lemma str_int_without (n : Z) (c : ascii) :
  is_digit c = false -> c <> "-"%char ->
  ~ In c (list_ascii_of_string (str_int n)).
Proof.
  intros Hd Hm Hin. destruct (str_int_plain n c Hin); congruence.
Qed.

Lemma csv_line_chars (x y : Z) (inside : bool) :
  list_ascii_of_string (csv_line (x, y, inside)) =
    list_ascii_of_string (str_int x) ++ ","%char ::
    list_ascii_of_string (str_int y) ++ ","%char ::
    list_ascii_of_string (str_bool inside) ++ [ascii_of_nat 10].
Proof.
  unfold csv_line. rewrite !chars_of_append. cbn [list_ascii_of_string app].
  reflexivity.
Qed.

Lemma csv_line_body (x y : Z) (inside : bool) :
  ~ In (ascii_of_nat 10)
       (list_ascii_of_string (str_int x) ++ ","%char ::
        list_ascii_of_string (str_int y) ++ ","%char ::
        list_ascii_of_string (str_bool inside)).
Proof.
  intros Hin.
  apply in_app_or in Hin as [Hin | [Hin | Hin]].
  - revert Hin. apply str_int_without; [reflexivity | discriminate].
  - discriminate Hin.
  - apply in_app_or in Hin as [Hin | [Hin | Hin]].
    + revert Hin. apply str_int_without; [reflexivity | discriminate].
    + discriminate Hin.
    + destruct inside; cbn in Hin;
        repeat (destruct Hin as [Hin | Hin]; [discriminate Hin |]);
        contradiction.
Qed.

Lemma csv_line_inj (r r' : Tracking.record) (t t' : list ascii) :
  list_ascii_of_string (csv_line r) ++ t =
  list_ascii_of_string (csv_line r') ++ t' ->
  r = r' /\ t = t'.
Proof.
  destruct r as [[x y] b], r' as [[x' y'] b'].
  rewrite !csv_line_chars. intros E.
  repeat rewrite <- app_assoc in E. cbn [app] in E.
  repeat (rewrite <- app_assoc in E; cbn [app] in E).
  assert (Hsplit :
    (list_ascii_of_string (str_int x) ++ ","%char ::
     list_ascii_of_string (str_int y) ++ ","%char ::
     list_ascii_of_string (str_bool b)) ++ ascii_of_nat 10 :: t =
    (list_ascii_of_string (str_int x') ++ ","%char ::
     list_ascii_of_string (str_int y') ++ ","%char ::
     list_ascii_of_string (str_bool b')) ++ ascii_of_nat 10 :: t').
  { repeat (rewrite <- app_assoc; cbn [app]). exact E. }
  apply split_at_char in Hsplit as [Hbody ->];
    [| apply csv_line_body | apply csv_line_body].
  apply split_at_char in Hbody as [Hx Hrest];
    [| apply str_int_without; [reflexivity | discriminate] ..].
  apply split_at_char in Hrest as [Hy Hb];
    [| apply str_int_without; [reflexivity | discriminate] ..].
  assert (x = x').
  { apply str_int_inj. rewrite <- (string_of_list_ascii_of_string (str_int x)),
      Hx. apply string_of_list_ascii_of_string. }
  assert (y = y').
  { apply str_int_inj. rewrite <- (string_of_list_ascii_of_string (str_int y)),
      Hy. apply string_of_list_ascii_of_string. }
  assert (b = b') by (destruct b, b'; cbn in Hb; congruence).
  subst. auto.
Qed.

Lemma csv_text_cons (r : Tracking.record) (rs : list Tracking.record) :
  list_ascii_of_string (csv_text (r :: rs)) =
    list_ascii_of_string (csv_line r) ++ list_ascii_of_string (csv_text rs).
Proof. unfold csv_text. cbn [map fold_right]. apply chars_of_append. Qed.

(** X25. The text of centroid.csv determines the records written: two
    sequences of records that give the same text are the same, line by
    line, so no centre or state is lost or merged in the file. *)
Theorem csv_text_determines_records (rs : list Tracking.record) :
  forall rs', csv_text rs = csv_text rs' -> rs = rs'.
Proof.
  induction rs as [| r rs IH]; intros [| r' rs'] E.
  - reflexivity.
  - apply (f_equal list_ascii_of_string) in E.
    rewrite csv_text_cons in E. destruct r' as [[x y] b].
    rewrite csv_line_chars in E. cbn in E.
    destruct (list_ascii_of_string (str_int x)); discriminate E.
  - apply (f_equal list_ascii_of_string) in E.
    rewrite csv_text_cons in E. destruct r as [[x y] b].
    rewrite csv_line_chars in E. cbn in E.
    destruct (list_ascii_of_string (str_int x)); discriminate E.
  - apply (f_equal list_ascii_of_string) in E.
    rewrite !csv_text_cons in E.
    apply csv_line_inj in E as [-> E]. f_equal. apply IH.
    rewrite <- (string_of_list_ascii_of_string (csv_text rs)), E.
    apply string_of_list_ascii_of_string.
Qed.

End Numerals.

(** ** The properties above at concrete inputs *)

Lemma point_inside_flat_region_witness :
  fst (Geometry.point_inside (Geometry.Rect 0 0 0 0) (0, 0)%Z) = true <->
  Geometry.in_closed_rect (Geometry.Rect 0 0 0 0) (0, 0)%Z.
Proof.
  apply (point_inside_flat_region (Geometry.Rect 0 0 0 0) (0, 0)%Z);
    simpl; lia.
Defined.

Lemma centre_in_box_witness :
  (3 <= fst (Tracking.centre (3, 4, 5, 6)) <= 3 + 5)%Z /\
  (4 <= snd (Tracking.centre (3, 4, 5, 6)) <= 4 + 6)%Z.
Proof. apply (centre_in_box 3 4 5 6); lia. Defined.






Lemma one_trigger_one_playback_witness :
  Workers.trigger_stim 6 (Workers.Events true false) Workers.stim_waiting =
  (Workers.Events false false,
   Workers.Stim Workers.StWait false true 1).
Proof.
  apply (one_trigger_one_playback Workers.stim_waiting 6); [reflexivity | lia].
Defined.

Lemma background_keeps_playing_witness :
  Workers.play_sound (1 + 2 * 3) (Workers.Events true false)
    Workers.bg_initial =
  Workers.Bg Workers.BgTest true true 3.
Proof.
  apply (background_keeps_playing 3 (Workers.Events true false)). reflexivity.
Defined.



Lemma noise_generator_body_squares_noise_witness :
  exists w,
    Synthesis.noise_generator (2 # 10) 5 44100 (fun _ => 1 # 2) = Some w /\
    Synthesis.get w 100000 = ((2 # 10) * (1 # 2) * (1 # 2))%Q.
Proof.
  destruct (noise_generator_body_squares_noise (2 # 10) 5 44100
              (fun _ => 1 # 2)) as (w & Hw & _ & Hbody); [lia | lia |].
  exists w. split; [exact Hw |].
  apply (Hbody 100000%Z). split; [discriminate | reflexivity].
Defined.

Lemma noise_generator_fades_witness :
  exists w,
    Synthesis.noise_generator (2 # 10) 5 44100 (fun _ => 1 # 2) = Some w /\
    (Synthesis.get w 0 == 0)%Q /\
    (Synthesis.get w (Synthesis.size w - 1) == 0)%Q.
Proof.
  destruct (noise_generator_fades (2 # 10) 5 44100 (fun _ => 1 # 2))
    as (w & Hw & H0 & Hn & _); [lia | lia |].
  exists w. split; [exact Hw |]. split; [exact H0 | exact Hn].
Defined.

Lemma noise_generator_rejects_nonpositive_duration_witness :
  Synthesis.noise_generator (2 # 10) 0 44100 (fun _ => 1 # 2) = None.
Proof.
  apply (noise_generator_rejects_nonpositive_duration (2 # 10) 0 44100
           (fun _ => 1 # 2)); lia.
Defined.

Lemma noise_generator_zero_amplitude_witness :
  exists w,
    Synthesis.noise_generator 0 5 44100 (fun _ => 1 # 2) = Some w /\
    forall k, (0 <= k < Synthesis.size w)%Z -> (Synthesis.get w k == 0)%Q.
Proof.
  apply (noise_generator_zero_amplitude 0 5 44100 (fun _ => 1 # 2));
    [lia | lia | reflexivity].
Defined.


Lemma envelope_between_amplitudes_witness :
  exists env,
    Synthesis.envelope (2 # 10) (7 # 10) = Some env /\
    forall k, (0 <= k < Synthesis.size env)%Z ->
      (0 <= Synthesis.get env k /\ Synthesis.get env k <= 1)%Q.
Proof.
  apply (envelope_between_amplitudes (2 # 10) (7 # 10) 0 1);
    unfold Qle; simpl; lia.
Defined.

Lemma envelope_falls_when_peak_below_base_witness :
  exists env,
    Synthesis.envelope (7 # 10) (2 # 10) = Some env /\
    Synthesis.get env 17639 = 2 # 10 /\
    Synthesis.get env 17640 = 7 # 10.
Proof.
  destruct (envelope_falls_when_peak_below_base (7 # 10) (2 # 10))
    as (env & Henv & _ & Hpeak & Hbase & _); [unfold Qle; simpl; lia |].
  exists env. split; [exact Henv |]. split; [exact Hpeak | exact Hbase].
Defined.

Lemma video_is_path_unless_numeral_witness :
  CommandLine.if_int "video1.mp4" = None /\
  CommandLine.video ["main.py"%string; "video1.mp4"%string] =
    Some (CommandLine.Path "video1.mp4").
Proof.
  apply (video_is_path_unless_numeral "main.py" "video1.mp4" [] "v"%char).
  - left. reflexivity.
  - reflexivity.
  - reflexivity.
Defined.

Lemma csv_text_determines_records_witness :
  [(2, 2, false)]%Z = [(2, 2, false)]%Z.
Proof.
  apply (csv_text_determines_records [(2, 2, false)]%Z [(2, 2, false)]%Z).
  reflexivity.
Defined.
